(** * Churn-Guard-AI: data loading, authentication state and prediction contract

    Shallow embedding of
    - the Spring Boot CSV loader ([DataLoader.loadData], [Customer]),
    - the React authentication provider ([AuthProvider]),
    - the form and the result card of the React [Predictor] component,
      the login form, the initial fetch and the toasts of the frontend,
    together with a model of the prediction and analytics engine whose
    Python sources are described by the specification only. *)

From Stdlib Require Import ZArith QArith Qabs Qround Lqa Lia Bool Ascii String.
From Stdlib Require Import Sorting.Sorted Sorting.Permutation.
From Stdlib Require Import Floats.PrimFloat Floats.SpecFloat Floats.FloatOps.
From Stdlib Require Import Numbers.Cyclic.Int63.Uint63 Numbers.DecimalString.
From stdpp Require Import gmap strings list.

Local Open Scope string_scope.
Local Open Scope Z_scope.

(** ** Java strings

    A Java [String] is modelled as a Rocq [string]; one [ascii] stands for one
    [char].  The CSV file shipped with the service is plain ASCII. *)
Module JavaString.

(** [c <= ' '], the test used by [String.trim]. *)
Definition le_space (c : ascii) : bool := (nat_of_ascii c <=? 32)%nat.

(** First loop of [String.trim]: skip the leading characters [<= ' ']. *)
Fixpoint trim_left (s : string) : string :=
  match s with
  | EmptyString => EmptyString
  | String c s' => if le_space c then trim_left s' else s
  end.

(** Second loop of [String.trim]: drop the trailing characters [<= ' ']. *)
Fixpoint trim_right (s : string) : string :=
  match s with
  | EmptyString => EmptyString
  | String c s' =>
      match trim_right s' with
      | EmptyString => if le_space c then EmptyString else String c EmptyString
      | t => String c t
      end
  end.

(** [String.trim()]. *)
Definition trim (s : string) : string := trim_right (trim_left s).

(** [String.isEmpty()]. *)
Definition isEmpty (s : string) : bool :=
  match s with EmptyString => true | _ => false end.

(** A string is blank when every character is [<= ' ']. *)
Fixpoint blank (s : string) : bool :=
  match s with
  | EmptyString => true
  | String c s' => le_space c && blank s'
  end.

(** The lookahead of the split pattern: the remainder of the line is a
    sequence of quoted pairs followed by quote-free text, that is, it holds
    an even number of double-quote characters (code 34). *)
Fixpoint even_quotes (s : string) : bool :=
  match s with
  | EmptyString => true
  | String c s' =>
      if Ascii.eqb c (ascii_of_nat 34) then negb (even_quotes s')
      else even_quotes s'
  end.

(** [line.split(regex, -1)] with the quote-aware comma pattern of
    [loadData]: cut at every comma that is followed by an even number of
    quotes; with limit [-1] every field is kept, also the empty ones at
    the end. *)
Fixpoint split (s : string) : list string :=
  match s with
  | EmptyString => [EmptyString]
  | String c s' =>
      if Ascii.eqb c "," && even_quotes s' then EmptyString :: split s'
      else match split s' with
           | f :: fs => String c f :: fs
           | [] => [String c EmptyString]
           end
  end.

(** [Character.digit(c, 10)] on ASCII. *)
Definition digit_of (c : ascii) : option Z :=
  let n := Z.of_nat (nat_of_ascii c) in
  if (48 <=? n) && (n <=? 57) then Some (n - 48) else None.

Fixpoint parse_digits (acc : Z) (s : string) : option Z :=
  match s with
  | EmptyString => Some acc
  | String c s' =>
      match digit_of c with
      | Some d => parse_digits (10 * acc + d) s'
      | None => None
      end
  end.

Definition Integer_MIN_VALUE : Z := - 2 ^ 31.
Definition Integer_MAX_VALUE : Z := 2 ^ 31 - 1.

(** [Integer.parseInt(s)]: an optional sign, at least one decimal digit,
    nothing else, and the value must fit in 32 bits; [None] stands for
    [NumberFormatException]. *)
Definition parseInt (s : string) : option Z :=
  match s with
  | EmptyString => None
  | String c s' =>
      if Ascii.eqb c "-" then
        match s' with
        | EmptyString => None
        | _ => match parse_digits 0 s' with
               | Some v => if Integer_MIN_VALUE <=? - v then Some (- v) else None
               | None => None
               end
        end
      else if Ascii.eqb c "+" then
        match s' with
        | EmptyString => None
        | _ => match parse_digits 0 s' with
               | Some v => if v <=? Integer_MAX_VALUE then Some v else None
               | None => None
               end
        end
      else
        match parse_digits 0 s with
        | Some v => if v <=? Integer_MAX_VALUE then Some v else None
        | None => None
        end
  end.

(** A decimal reader used to instantiate [Double.parseDouble] on plain
    literals [[-]digits[.digits]] of at most 15 digits: both the digit string
    and the power of ten are then exact binary64 values, so their quotient
    is the correctly rounded double, as [parseDouble] returns it. *)
Fixpoint split_dot (s : string) : string * option string :=
  match s with
  | EmptyString => (EmptyString, None)
  | String c s' =>
      if Ascii.eqb c "." then (EmptyString, Some s')
      else let '(a, b) := split_dot s' in (String c a, b)
  end.

Definition float_of_Z (z : Z) : float := of_uint63 (Uint63.of_Z z).

Definition parseUnsignedDecimal (s : string) : option float :=
  let '(ip, fp) := split_dot s in
  let fr := match fp with Some f => f | None => EmptyString end in
  let digits := String.append ip fr in
  if isEmpty digits || (15 <? String.length digits)%nat then None
  else match parse_digits 0 digits with
       | Some m => Some (float_of_Z m / float_of_Z (10 ^ Z.of_nat (String.length fr)))%float
       | None => None
       end.

Definition parseDecimal (s : string) : option float :=
  match trim s with
  | String c s' =>
      if Ascii.eqb c "-" then
        match parseUnsignedDecimal s' with
        | Some f => Some (- f)%float
        | None => None
        end
      else parseUnsignedDecimal (String c s')
  | EmptyString => None
  end.

End JavaString.

(** ** The Spring Boot customer entity and CSV loader *)
Module DataLoader.
Import JavaString.

(** [Customer.java]: the JPA entity.  [id_] is the generated primary key
    ([Long id], null until the row is inserted); the two [Double] fields are
    binary64 values. *)
Record Customer := {
  id_ : option Z;
  customerId : string;
  gender : string;
  seniorCitizen : Z;
  partner : string;
  dependents : string;
  tenure : Z;
  phoneService : string;
  multipleLines : string;
  internetService : string;
  onlineSecurity : string;
  onlineBackup : string;
  deviceProtection : string;
  techSupport : string;
  streamingTV : string;
  streamingMovies : string;
  contract : string;
  paperlessBilling : string;
  paymentMethod : string;
  monthlyCharges : float;
  totalCharges : float;
  churn : string
}.

(** The exceptions [loadData] can meet inside its [try] block. *)
Inductive exn :=
| ArrayIndexOutOfBoundsException (index : nat)
| NumberFormatException (input : string)
| IOException.

Inductive result (A : Type) :=
| Ok (a : A)
| Throw (e : exn).
Arguments Ok {A} a.
Arguments Throw {A} e.

#[global] Instance result_ret : MRet result := fun A a => Ok a.
#[global] Instance result_bind : MBind result :=
  fun A B f m => match m with Ok a => f a | Throw e => Throw e end.

(** [data[i]]. *)
Definition at_index (data : list string) (i : nat) : result string :=
  match data !! i with
  | Some s => Ok s
  | None => Throw (ArrayIndexOutOfBoundsException i)
  end.

Definition Integer_parseInt (s : string) : result Z :=
  match parseInt s with
  | Some z => Ok z
  | None => Throw (NumberFormatException s)
  end.

(** What [loadData] prints. *)
Inductive console :=
| Skipped
| Loaded (n : nat)
| Failed (e : exn).

(** [CustomerRepository] is a Spring Data interface whose implementation is
    generated; [loadData] uses [count] and [saveAll] only. *)
Class CustomerRepository (R : Type) := {
  count : R -> Z;
  saveAll : R -> list Customer -> R
}.

Section Loader.

(** [Double.parseDouble]; [None] stands for [NumberFormatException]. *)
Variable parseDouble : string -> option float.

Definition Double_parseDouble (s : string) : result float :=
  match parseDouble s with
  | Some d => Ok d
  | None => Throw (NumberFormatException s)
  end.

(** The total-charges column: trimmed, then [0.0] when nothing is left. *)
Definition readTotalCharges (field : string) : result float :=
  let totalChargesStr := trim field in
  if isEmpty totalChargesStr || String.eqb totalChargesStr " " then Ok 0%float
  else Double_parseDouble totalChargesStr.

(** The body of the [while] loop for one data line: split the line and fill
    a new [Customer], column by column, in the order of the source. *)
Definition parseLine (line : string) : result Customer :=
  let data := split line in
  c0 ← at_index data 0;
  c1 ← at_index data 1;
  c2 ← at_index data 2 ≫= Integer_parseInt;
  c3 ← at_index data 3;
  c4 ← at_index data 4;
  c5 ← at_index data 5 ≫= Integer_parseInt;
  c6 ← at_index data 6;
  c7 ← at_index data 7;
  c8 ← at_index data 8;
  c9 ← at_index data 9;
  c10 ← at_index data 10;
  c11 ← at_index data 11;
  c12 ← at_index data 12;
  c13 ← at_index data 13;
  c14 ← at_index data 14;
  c15 ← at_index data 15;
  c16 ← at_index data 16;
  c17 ← at_index data 17;
  c18 ← at_index data 18 ≫= Double_parseDouble;
  c19 ← at_index data 19 ≫= readTotalCharges;
  c20 ← at_index data 20;
  mret {| id_ := None; customerId := c0; gender := c1; seniorCitizen := c2;
          partner := c3; dependents := c4; tenure := c5; phoneService := c6;
          multipleLines := c7; internetService := c8; onlineSecurity := c9;
          onlineBackup := c10; deviceProtection := c11; techSupport := c12;
          streamingTV := c13; streamingMovies := c14; contract := c15;
          paperlessBilling := c16; paymentMethod := c17;
          monthlyCharges := c18; totalCharges := c19; churn := c20 |}.

(** The [while ((line = br.readLine()) != null)] loop, with its two local
    variables [isFirstLine] and [customers]. *)
Fixpoint readLoop (lines : list string) (isFirstLine : bool)
    (customers : list Customer) : result (list Customer) :=
  match lines with
  | [] => Ok customers
  | line :: rest =>
      if isFirstLine then readLoop rest false customers
      else c ← parseLine line; readLoop rest false (customers ++ [c])
  end.

(** The three numeric columns of a data line, read as [parseLine] reads
    them: tenure (column 5), monthly charges (18), total charges (19). *)
Definition numeric_columns (line : string) : result (Z * float * float) :=
  let data := split line in
  t ← at_index data 5 ≫= Integer_parseInt;
  m ← at_index data 18 ≫= Double_parseDouble;
  tc ← at_index data 19 ≫= readTotalCharges;
  mret (t, m, tc).


(** What [loadData] does with the total-charges column of a line. *)
Definition total_charges_rule (line : string) (c : Customer) : Prop :=
  exists field, split line !! 19%nat = Some field /\
    (blank field = true -> totalCharges c = 0%float) /\
    (blank field = false -> parseDouble (trim field) = Some (totalCharges c)).

Context {R : Type} `{CustomerRepository R}.

(** [loadData()].  [resource] is the content of [Customer-Churn.csv] as the
    lines [readLine] returns, or [None] when opening or reading the resource
    throws; every exception of the [try] block ends in the [catch]. *)
Definition loadData (resource : option (list string)) (repo : R) : R * console :=
  if 0 <? count repo then (repo, Skipped)
  else
    match resource with
    | None => (repo, Failed IOException)
    | Some lines =>
        match readLoop lines true [] with
        | Ok customers => (saveAll repo customers, Loaded (length customers))
        | Throw e => (repo, Failed e)
        end
    end.

End Loader.

(** An in-memory table with an identity column, as the H2 database keeps
    it: rows by primary key and the next key to hand out. *)
Record Table := { rows : gmap Z Customer; next_id : Z }.

Definition with_id (c : Customer) (i : Z) : Customer :=
  {| id_ := Some i; customerId := customerId c; gender := gender c;
     seniorCitizen := seniorCitizen c; partner := partner c;
     dependents := dependents c; tenure := tenure c;
     phoneService := phoneService c; multipleLines := multipleLines c;
     internetService := internetService c; onlineSecurity := onlineSecurity c;
     onlineBackup := onlineBackup c; deviceProtection := deviceProtection c;
     techSupport := techSupport c; streamingTV := streamingTV c;
     streamingMovies := streamingMovies c; contract := contract c;
     paperlessBilling := paperlessBilling c; paymentMethod := paymentMethod c;
     monthlyCharges := monthlyCharges c; totalCharges := totalCharges c;
     churn := churn c |}.

(** [save]: a new entity (null id) is inserted under a fresh key, an entity
    that carries a key replaces the row of that key. *)
Definition save (t : Table) (c : Customer) : Table :=
  match id_ c with
  | None => {| rows := <[next_id t := with_id c (next_id t)]> (rows t);
               next_id := next_id t + 1 |}
  | Some i => {| rows := <[i := c]> (rows t); next_id := next_id t |}
  end.

Definition table_saveAll (t : Table) (cs : list Customer) : Table :=
  foldl save t cs.

Definition table_count (t : Table) : Z := Z.of_nat (size (rows t)).

Definition empty_table : Table := {| rows := ∅; next_id := 1 |}.

(** The data-model invariant on one record: tenure and both charges are
    not negative ([<=?] on doubles is false on NaN). *)
Definition nonneg_invariant (c : Customer) : Prop :=
  0 <= tenure c /\
  (0 <=? monthlyCharges c)%float = true /\
  (0 <=? totalCharges c)%float = true.


#[global] Instance table_repository : CustomerRepository Table := {|
  count := table_count;
  saveAll := table_saveAll
|}.

(** Sample content of [Customer-Churn.csv]: the header, a data line, a
    data line whose total charges are blank, and two malformed lines. *)
Definition csv_header : string :=
  "customerID,gender,SeniorCitizen,Partner,Dependents,tenure,PhoneService,MultipleLines,InternetService,OnlineSecurity,OnlineBackup,DeviceProtection,TechSupport,StreamingTV,StreamingMovies,Contract,PaperlessBilling,PaymentMethod,MonthlyCharges,TotalCharges,Churn".
Definition csv_line_1 : string :=
  "7590-VHVEG,Female,0,Yes,No,1,No,No phone service,DSL,No,Yes,No,No,No,No,Month-to-month,Yes,Electronic check,29.85,29.85,No".
Definition csv_line_blank_total : string :=
  "4472-LVYGI,Female,0,Yes,Yes,0,No,No phone service,DSL,Yes,No,Yes,Yes,Yes,No,Two year,Yes,Bank transfer (automatic),52.55, ,No".
Definition csv_line_negative_tenure : string :=
  "0001-NEGAT,Male,0,No,No,-3,Yes,No,DSL,No,No,No,No,No,No,One year,No,Mailed check,20.05,-60.15,No".
Definition csv_line_short : string :=
  "0002-SHORT,Male,0,No,No,12,Yes".

Definition csv_good : list string :=
  [csv_header; csv_line_1; csv_line_blank_total].
Definition csv_broken : list string :=
  [csv_header; csv_line_1; csv_line_short; csv_line_blank_total].

End DataLoader.


(** ** The React authentication provider ([AuthContext.jsx])

    Two versions of the provider are in the repository.  They differ in the
    first render (the later one sets the axios header and the user while the
    module loads) and in what [login] gives back on failure; the state
    transitions are the same. *)
Module Auth.

(** The JavaScript values the token state can hold: what
    [localStorage.getItem] returns (a string or [null]), what [logout] sets
    ([null]) and [res.data.access_token] (a string, or [undefined] when the
    response has no such field). *)
Inductive token_value :=
| TUndefined
| TNull
| TString (s : string).

(** JavaScript truthiness, as used by [if (token)] and [!!token]. *)
Definition truthy (t : token_value) : bool :=
  match t with
  | TString EmptyString => false
  | TString _ => true
  | TUndefined | TNull => false
  end.

(** [Object.is] on token values, the comparison React applies to the
    dependency array [[token]]. *)
Definition same_value (a b : token_value) : bool :=
  match a, b with
  | TUndefined, TUndefined => true
  | TNull, TNull => true
  | TString x, TString y => String.eqb x y
  | _, _ => false
  end.

(** [String(v)], applied by [localStorage.setItem] and by the template
    literal. *)
Definition toString (t : token_value) : string :=
  match t with
  | TUndefined => "undefined"
  | TNull => "null"
  | TString s => s
  end.

(** The template literal [`Bearer ${token}`]. *)
Definition bearer (t : token_value) : string :=
  String.append "Bearer " (toString t).

Record User := { username : string }.

Definition admin : User := {| username := "admin" |}.

(** The provider's two state cells, the two pieces of the environment it
    writes, and the dependency value the effect last ran with ([None]
    before the first commit). *)
Record State := {
  token : token_value;
  user : option User;
  Authorization : option string;
  storage : option string;
  effect_dep : option token_value
}.

Definition isAuthenticated (s : State) : bool := truthy (token s).

(** [setToken(t)]. *)
Definition setToken (t : token_value) (s : State) : State :=
  {| token := t; user := user s; Authorization := Authorization s;
     storage := storage s; effect_dep := effect_dep s |}.

(** [localStorage.setItem('token', t)] and [localStorage.removeItem('token')]. *)
Definition setItem (t : token_value) (s : State) : State :=
  {| token := token s; user := user s; Authorization := Authorization s;
     storage := Some (toString t); effect_dep := effect_dep s |}.

Definition removeItem (s : State) : State :=
  {| token := token s; user := user s; Authorization := Authorization s;
     storage := None; effect_dep := effect_dep s |}.

(** The body of [useEffect(() => {...}, [token])]. *)
Definition effect (s : State) : State :=
  if truthy (token s) then
    {| token := token s; user := Some admin;
       Authorization := Some (bearer (token s));
       storage := storage s; effect_dep := Some (token s) |}
  else
    {| token := token s; user := None; Authorization := None;
       storage := storage s; effect_dep := Some (token s) |}.

(** A render followed by its commit: the effect runs on the first commit
    and whenever [token] differs from the value it last ran with. *)
Definition commit (s : State) : State :=
  match effect_dep s with
  | Some t => if same_value t (token s) then s else effect s
  | None => effect s
  end.

(** [localStorage.getItem('token')]. *)
Definition getItem (stored : option string) : token_value :=
  match stored with
  | Some s => TString s
  | None => TNull
  end.

Inductive version := Original | Revised.

(** The state of the first render.  [Original]: [useState(null)] for the
    user and [useState(localStorage.getItem('token'))] for the token.
    [Revised]: the module first reads [storedToken] and, when it is truthy,
    sets the header; the user starts as [admin] in that case. *)
Definition first_render (v : version) (stored : option string) : State :=
  let storedToken := getItem stored in
  match v with
  | Original =>
      {| token := storedToken; user := None; Authorization := None;
         storage := stored; effect_dep := None |}
  | Revised =>
      {| token := storedToken;
         user := if truthy storedToken then Some admin else None;
         Authorization :=
           if truthy storedToken then Some (bearer storedToken) else None;
         storage := stored; effect_dep := None |}
  end.

(** Mounting the provider: first render, then the first commit. *)
Definition mount (v : version) (stored : option string) : State :=
  commit (first_render v stored).

(** What the token endpoint answers: the [access_token] of a successful
    response, or a failure (rejected credentials, network error). *)
Inductive token_response :=
| Granted (access_token : token_value)
| Rejected.

(** What [login] gives back: [true], or on failure [false] ([Original]) or
    a thrown message ([Revised]). *)
Inductive login_outcome :=
| Returned (b : bool)
| Thrown.

(** [login(username, password)], followed by the render it schedules. *)
Definition login (v : version) (resp : token_response) (s : State) :
    State * login_outcome :=
  match resp with
  | Granted access_token =>
      (commit (setItem access_token (setToken access_token s)), Returned true)
  | Rejected =>
      (s, match v with Original => Returned false | Revised => Thrown end)
  end.

(** [logout()], followed by the render it schedules. *)
Definition logout (s : State) : State :=
  commit (removeItem (setToken TNull s)).

(** One login or logout transition of the provider. *)
Inductive step (v : version) : State -> State -> Prop :=
| step_login (resp : token_response) (s : State) :
    step v s (fst (login v resp s))
| step_logout (s : State) :
    step v s (logout s).

(** The states the provider goes through once mounted. *)
Inductive reachable (v : version) (stored : option string) : State -> Prop :=
| reachable_mount : reachable v stored (mount v stored)
| reachable_step (s s' : State) :
    reachable v stored s -> step v s s' -> reachable v stored s'.

(** A token is present when the state holds a non-empty string. *)
Definition token_present (s : State) : Prop :=
  exists tok, token s = TString tok /\ tok <> EmptyString.

(** The invariant of the authentication state. *)
Definition invariant (s : State) : Prop :=
  (isAuthenticated s = true <-> token_present s) /\
  (token_present s -> Authorization s = Some (bearer (token s))) /\
  (~ token_present s -> Authorization s = None).

(** After a commit the header and the user agree with the token and the
    effect has seen the current token. *)
Definition synced (s : State) : Prop :=
  effect_dep s = Some (token s) /\
  Authorization s
    = (if truthy (token s) then Some (bearer (token s)) else None) /\
  user s = (if truthy (token s) then Some admin else None).

End Auth.

(** ** JavaScript values of the form and of the responses

    The numbers the form holds are results of [parseInt] and literals:
    integers of magnitude below 2^53, which binary64 represents exactly,
    and NaN.  They are modelled as exact rationals plus NaN. *)
Module JS.

Inductive number :=
| NaN
| Num (q : Q).

#[warnings="-register-all"] Inductive value :=
| Undefined
| Null
| Boolean (b : bool)
| Number (n : number)
| Str (s : string)
| Array (items : list value)
| Object (fields : list (string * value)).

(** White space that [parseInt] skips, among the ASCII characters. *)
Definition is_white_space (c : ascii) : bool :=
  let n := nat_of_ascii c in
  ((9 <=? n) && (n <=? 13))%nat || (n =? 32)%nat.

Fixpoint skip_white_space (s : string) : string :=
  match s with
  | String c s' => if is_white_space c then skip_white_space s' else s
  | EmptyString => EmptyString
  end.

(** The value of a digit in the given radix (10 or 16). *)
Definition radix_digit (radix : Z) (c : ascii) : option Z :=
  let n := Z.of_nat (nat_of_ascii c) in
  let d := if (48 <=? n) && (n <=? 57) then Some (n - 48)
           else if (97 <=? n) && (n <=? 102) then Some (n - 87)
           else if (65 <=? n) && (n <=? 70) then Some (n - 55)
           else None in
  match d with
  | Some v => if v <? radix then Some v else None
  | None => None
  end.

(** The longest prefix of digits, read as a number; [None] when the prefix
    is empty. *)
Fixpoint digits_prefix (radix : Z) (acc : option Z) (s : string) : option Z :=
  match s with
  | EmptyString => acc
  | String c s' =>
      match radix_digit radix c with
      | Some d =>
          digits_prefix radix
            (Some (radix * (match acc with Some a => a | None => 0 end) + d)) s'
      | None => acc
      end
  end.

(** [parseInt(string)] with no radix: skip white space, read a sign, take
    radix 16 after a [0x] or [0X] prefix and radix 10 otherwise, and read
    the longest prefix of digits; NaN when there is none.  The integer read
    is exact: JavaScript gives the same number as long as it is below 2^53
    in magnitude, which holds for every text of at most 15 characters, and
    rounds to binary64 (at last to Infinity) beyond. *)
Definition parseInt (input : string) : number :=
  let s := skip_white_space input in
  let '(sign, s1) :=
    match s with
    | String c rest =>
        if Ascii.eqb c "-" then (-1, rest)
        else if Ascii.eqb c "+" then (1, rest)
        else (1, s)
    | EmptyString => (1, s)
    end in
  let '(radix, s2) :=
    match s1 with
    | String c0 (String c1 rest) =>
        if Ascii.eqb c0 "0" && (Ascii.eqb c1 "x" || Ascii.eqb c1 "X")
        then (16, rest) else (10, s1)
    | _ => (10, s1)
    end in
  match digits_prefix radix None s2 with
  | Some m => Num (inject_Z (sign * m))
  | None => NaN
  end.

End JS.

(** ** The [Predictor] component of [App.jsx] *)
Module Predictor.
Import JS.

(** The form state [formData], as [useState] initialises it; it is the body
    posted to [/api/predict]. *)
Record FormData := {
  gender : string;
  SeniorCitizen : number;
  Partner : string;
  Dependents : string;
  tenure : number;
  PhoneService : string;
  MultipleLines : string;
  InternetService : string;
  OnlineSecurity : string;
  OnlineBackup : string;
  DeviceProtection : string;
  TechSupport : string;
  StreamingTV : string;
  StreamingMovies : string;
  Contract : string;
  PaperlessBilling : string;
  PaymentMethod : string;
  MonthlyCharges : number;
  TotalCharges : number
}.

Definition initialFormData : FormData := {|
  gender := "Female"; SeniorCitizen := Num 0%Q; Partner := "No";
  Dependents := "No"; tenure := Num 1%Q; PhoneService := "Yes";
  MultipleLines := "No"; InternetService := "Fiber optic";
  OnlineSecurity := "No"; OnlineBackup := "No"; DeviceProtection := "No";
  TechSupport := "No"; StreamingTV := "No"; StreamingMovies := "No";
  Contract := "Month-to-month"; PaperlessBilling := "Yes";
  PaymentMethod := "Electronic check";
  MonthlyCharges := Num 70%Q; TotalCharges := Num 70%Q
|}.

(** The options of the three [select] controls. *)
Definition contract_options : list string :=
  ["Month-to-month"; "One year"; "Two year"].
Definition payment_options : list string :=
  ["Electronic check"; "Mailed check"; "Bank transfer (automatic)";
   "Credit card (automatic)"].
Definition internet_options : list string :=
  ["Fiber optic"; "DSL"; "No"].

(** [onChange] of the tenure input:
    [setFormData({ ...formData, tenure: parseInt(e.target.value) })]. *)
Definition onChangeTenure (formData : FormData) (value : string) : FormData :=
  {| gender := gender formData; SeniorCitizen := SeniorCitizen formData;
     Partner := Partner formData; Dependents := Dependents formData;
     tenure := parseInt value;
     PhoneService := PhoneService formData;
     MultipleLines := MultipleLines formData;
     InternetService := InternetService formData;
     OnlineSecurity := OnlineSecurity formData;
     OnlineBackup := OnlineBackup formData;
     DeviceProtection := DeviceProtection formData;
     TechSupport := TechSupport formData;
     StreamingTV := StreamingTV formData;
     StreamingMovies := StreamingMovies formData;
     Contract := Contract formData;
     PaperlessBilling := PaperlessBilling formData;
     PaymentMethod := PaymentMethod formData;
     MonthlyCharges := MonthlyCharges formData;
     TotalCharges := TotalCharges formData |}.


End Predictor.

(** ** The prediction and analytics engine

    The Python sources of the engine are not part of the sources at hand;
    every definition of this module follows the specification. *)
Module Engine.

Local Open Scope Q_scope.

(** Modelled from the spec: the failure taxonomy of section 7
    (the engine's sources are absent). *)
Inductive error :=
| FeatureError (field value : string)
| ModelLoadError
| InsufficientDataError (label : string) (size : nat)
| PredictionError.

Inductive result (A : Type) :=
| Ok (a : A)
| Err (e : error).
Arguments Ok {A} a.
Arguments Err {A} e.

#[global] Instance result_ret : MRet result := fun A a => Ok a.
#[global] Instance result_bind : MBind result :=
  fun A B f m => match m with Ok a => f a | Err e => Err e end.

(** Modelled from the spec: CustomerRecord of section 3, the categorical
    fields as text and the numeric fields as numbers (the record type of
    the engine is absent from the sources). *)
Record CustomerRecord := {
  gender : string;
  partner : string;
  dependents : string;
  phone_service : string;
  multiple_lines : string;
  internet_service : string;
  contract : string;
  payment_method : string;
  paperless_billing : string;
  online_security : string;
  online_backup : string;
  device_protection : string;
  tech_support : string;
  streaming_tv : string;
  streaming_movies : string;
  senior_citizen : Z;
  tenure : Z;
  monthly_charge : Q;
  total_charge : Q
}.

(** Modelled from the spec: FeatureVector of section 3, an ordered mapping
    of feature names to numbers. *)
Definition FeatureVector : Type := list (string * Q).

(** Modelled from the spec: the fixed feature order of section 3. *)
Definition feature_order : list string :=
  ["customer_value_score"; "service_count"; "premium_service_count";
   "contract_stability"; "payment_risk"; "tenure_group"; "charge_ratio";
   "senior_and_high_monthly"; "fiber_without_security"].

(** Modelled from the spec: the constants that section 4.1 treats as model
    metadata: the two normalisation constants of the value score, the
    bounds of the tenure buckets and the monthly charge above which a
    charge counts as high. *)
Record Normalization := {
  MAX_MONTHLY : Q;
  MAX_TOTAL : Q;
  tenure_bounds : list Z;
  high_monthly : Q
}.

(** Modelled from the spec: a base classifier has one capability, the
    class-1 probability of a feature vector, and carries its global
    feature importances (sections 4.2, 4.3 and 9). *)
Record Classifier := {
  proba : FeatureVector -> Q;
  importances : list Q
}.

(** Modelled from the spec: the reference population of section 4.3, per
    feature its mean, its scale and the direction (+1 or -1) in which a
    deviation pushes toward churn. *)
Record Reference := {
  ref_mean : Q;
  ref_scale : Q;
  ref_direction : Q
}.

Inductive Priority := High | Medium | Low.
Inductive RiskLevel := RiskLow | RiskMedium | RiskHigh.
Inductive Prediction := Yes | No.

(** Modelled from the spec: StrategyAction of section 3. *)
Record StrategyAction := {
  action : string;
  priority : Priority;
  details : string;
  expected_impact : string
}.

(** Modelled from the spec: a risk factor of section 3. *)
Record RiskFactor := {
  feature_name : string;
  human_label : string;
  contribution_score : Q
}.

(** Modelled from the spec: a rule of the table of section 4.4: a condition
    on the risk level, the risk factors and the record, and its action. *)
Record Rule := {
  applies : RiskLevel -> list RiskFactor -> CustomerRecord -> bool;
  emits : StrategyAction
}.

(** Modelled from the spec: ModelBundle of section 3: the classifiers,
    their combination weights, the ordered feature names and the metadata
    (version, training date, the constants and the reference population
    fixed at training time). *)
Record ModelBundle := {
  classifiers : list Classifier;
  weights : list Q;
  feature_names : list string;
  version : string;
  trained_at : string;
  normalization : Normalization;
  reference : list Reference
}.

(** Modelled from the spec: what sections 3, 4.3 and 4.4 fix besides the
    bundle: the label table, the ordered rule table and its cap, the
    decision threshold and the two thresholds of the risk level. *)
Record Policy := {
  labels : list (string * string);
  rules : list Rule;
  max_actions : nat;
  decision_threshold : Q;
  medium_threshold : Q;
  high_threshold : Q
}.

(** Modelled from the spec: PredictionResult of section 3. *)
Record PredictionResult := {
  churn_probability : Q;
  prediction : Prediction;
  risk_level : RiskLevel;
  risk_factors : list RiskFactor;
  suggestions : list StrategyAction;
  model_version : string;
  confidence : Q
}.

(** *** FeatureDeriver *)

(** Modelled from the spec: contract_stability, month-to-month = 1,
    one-year = 2, two-year = 3; the three values are the vocabulary. *)
Definition contract_stability (c : string) : option Q :=
  if String.eqb c "Month-to-month" then Some 1
  else if String.eqb c "One year" then Some 2
  else if String.eqb c "Two year" then Some 3
  else None.

(** Modelled from the spec: payment_risk, ordinal 1 to 3 with electronic
    check the highest risk; the four values are the vocabulary. *)
Definition payment_risk (m : string) : option Q :=
  if String.eqb m "Electronic check" then Some 3
  else if String.eqb m "Mailed check" then Some 2
  else if String.eqb m "Bank transfer (automatic)" then Some 1
  else if String.eqb m "Credit card (automatic)" then Some 1
  else None.

(** Modelled from the spec: the vocabulary of the internet-service field;
    [Some true] for fiber optic. *)
Definition fiber (i : string) : option bool :=
  if String.eqb i "Fiber optic" then Some true
  else if String.eqb i "DSL" then Some false
  else if String.eqb i "No" then Some false
  else None.

(** Modelled from the spec: the categorical fields of CustomerRecord
    (section 3), each of which must hold a value of its fixed enumeration
    (section 4.1), in the order of the record. *)
Inductive Field :=
| FGender | FPartner | FDependents | FPhoneService | FMultipleLines
| FInternetService | FContract | FPaymentMethod | FPaperlessBilling
| FOnlineSecurity | FOnlineBackup | FDeviceProtection | FTechSupport
| FStreamingTV | FStreamingMovies.

Definition all_fields : list Field :=
  [FGender; FPartner; FDependents; FPhoneService; FMultipleLines;
   FInternetService; FContract; FPaymentMethod; FPaperlessBilling;
   FOnlineSecurity; FOnlineBackup; FDeviceProtection; FTechSupport;
   FStreamingTV; FStreamingMovies].

Definition field_name (f : Field) : string :=
  match f with
  | FGender => "gender"
  | FPartner => "partner"
  | FDependents => "dependents"
  | FPhoneService => "phone_service"
  | FMultipleLines => "multiple_lines"
  | FInternetService => "internet_service"
  | FContract => "contract"
  | FPaymentMethod => "payment_method"
  | FPaperlessBilling => "paperless_billing"
  | FOnlineSecurity => "online_security"
  | FOnlineBackup => "online_backup"
  | FDeviceProtection => "device_protection"
  | FTechSupport => "tech_support"
  | FStreamingTV => "streaming_tv"
  | FStreamingMovies => "streaming_movies"
  end.

Definition field_value (f : Field) (r : CustomerRecord) : string :=
  match f with
  | FGender => gender r
  | FPartner => partner r
  | FDependents => dependents r
  | FPhoneService => phone_service r
  | FMultipleLines => multiple_lines r
  | FInternetService => internet_service r
  | FContract => contract r
  | FPaymentMethod => payment_method r
  | FPaperlessBilling => paperless_billing r
  | FOnlineSecurity => online_security r
  | FOnlineBackup => online_backup r
  | FDeviceProtection => device_protection r
  | FTechSupport => tech_support r
  | FStreamingTV => streaming_tv r
  | FStreamingMovies => streaming_movies r
  end.

(** Modelled from the spec: the fixed enumerations.  Those of the
    contract, the payment method and the internet service are the values
    the ordinal encodings name; a flag reads Yes or No; the boolean-like
    fields that depend on a service have the third value that says the
    service is absent. *)
Definition vocabulary (f : Field) : list string :=
  match f with
  | FGender => ["Female"; "Male"]
  | FPartner | FDependents | FPhoneService | FPaperlessBilling => ["Yes"; "No"]
  | FMultipleLines => ["Yes"; "No"; "No phone service"]
  | FInternetService => ["Fiber optic"; "DSL"; "No"]
  | FContract => ["Month-to-month"; "One year"; "Two year"]
  | FPaymentMethod =>
      ["Electronic check"; "Mailed check"; "Bank transfer (automatic)";
       "Credit card (automatic)"]
  | FOnlineSecurity | FOnlineBackup | FDeviceProtection | FTechSupport
  | FStreamingTV | FStreamingMovies => ["Yes"; "No"; "No internet service"]
  end.

Definition in_vocabulary (f : Field) (r : CustomerRecord) : bool :=
  existsb (String.eqb (field_value f r)) (vocabulary f).

(** Modelled from the spec: the validation of section 4.1, which looks
    for the first categorical field, in record order, whose value is
    outside its vocabulary. *)
Definition first_invalid (r : CustomerRecord) : option Field :=
  List.find (fun f => negb (in_vocabulary f r)) all_fields.

(** Modelled from the spec: a valid record, every categorical field of
    which holds a value of its vocabulary. *)
Definition valid (r : CustomerRecord) : Prop :=
  forall f, in_vocabulary f r = true.

(** A boolean-like field is on when it reads Yes. *)
Definition yes (s : string) : Q := if String.eqb s "Yes" then 1 else 0.

Definition add_ons (r : CustomerRecord) : list string :=
  [online_security r; online_backup r; device_protection r; tech_support r;
   streaming_tv r; streaming_movies r].

Definition Qsum (l : list Q) : Q := fold_right Qplus 0 l.

Definition bool_to_Q (b : bool) : Q := if b then 1 else 0.

(** Modelled from the spec: the bucket of a tenure, the number of bounds
    it has reached. *)
Definition tenure_group (bounds : list Z) (t : Z) : Q :=
  inject_Z (Z.of_nat (length (filter (fun b => (b <=? t)%Z) bounds))).

(** Modelled from the spec: charge_ratio = total / (monthly * max(tenure,1)),
    0 when the monthly charge is 0. *)
Definition charge_ratio (r : CustomerRecord) : Q :=
  if Qeq_bool (monthly_charge r) 0 then 0
  else total_charge r / (monthly_charge r * inject_Z (Z.max (tenure r) 1)).

(** Modelled from the spec: customer_value_score = tenure*0.3
    + (monthly/MAX_MONTHLY)*100*0.4 + (total/MAX_TOTAL)*100*0.3. *)
Definition customer_value_score (n : Normalization) (r : CustomerRecord) : Q :=
  inject_Z (tenure r) * (3 # 10)
  + (monthly_charge r / MAX_MONTHLY n) * 100 * (4 # 10)
  + (total_charge r / MAX_TOTAL n) * 100 * (3 # 10).

(** Modelled from the spec: the derived features of section 4.1, in the
    fixed order; the three encodings are defined on the vocabulary of
    their field and raise FeatureError off it. *)
Definition features (n : Normalization) (r : CustomerRecord) : result FeatureVector :=
  match contract_stability (contract r) with
  | None => Err (FeatureError "contract" (contract r))
  | Some stability =>
  match payment_risk (payment_method r) with
  | None => Err (FeatureError "payment_method" (payment_method r))
  | Some risk =>
  match fiber (internet_service r) with
  | None => Err (FeatureError "internet_service" (internet_service r))
  | Some is_fiber =>
      Ok [("customer_value_score", customer_value_score n r);
          ("service_count",
            yes (phone_service r) + yes (multiple_lines r)
            + bool_to_Q (negb (String.eqb (internet_service r) "No"))
            + Qsum (map yes (add_ons r)));
          ("premium_service_count", Qsum (map yes (add_ons r)));
          ("contract_stability", stability);
          ("payment_risk", risk);
          ("tenure_group", tenure_group (tenure_bounds n) (tenure r));
          ("charge_ratio", charge_ratio r);
          ("senior_and_high_monthly",
            bool_to_Q ((senior_citizen r =? 1)%Z
                       && negb (Qle_bool (monthly_charge r) (high_monthly n))));
          ("fiber_without_security",
            bool_to_Q (is_fiber && negb (String.eqb (online_security r) "Yes")))]
  end end end.

(** Modelled from the spec: derive of section 4.1: every categorical
    field is checked against its vocabulary, and the first one off it
    raises FeatureError with the field and the value; only then are the
    features computed, in the fixed order. *)
Definition derive (n : Normalization) (r : CustomerRecord) : result FeatureVector :=
  match first_invalid r with
  | Some f => Err (FeatureError (field_name f) (field_value f r))
  | None => features n r
  end.

(** *** EnsembleScorer *)

Definition weighted_sum (ws ps : list Q) : Q := Qsum (zip_with Qmult ws ps).

(** The class-1 probabilities of the base classifiers, in bundle order. *)
Definition base_probabilities (v : FeatureVector) (b : ModelBundle) : list Q :=
  map (fun c => proba c v) (classifiers b).

(** Modelled from the spec: score of section 4.2, the average of the base
    probabilities weighted by the weights the bundle carries. *)
Definition score (v : FeatureVector) (b : ModelBundle) : Q :=
  weighted_sum (weights b) (base_probabilities v b) / Qsum (weights b).

(** The same computation in an arithmetic that rounds the result of every
    multiplication, addition and division with [rnd]; the sum of the
    (integer) weights is exact. *)
Definition rounded_score (rnd : Q -> Q) (v : FeatureVector) (b : ModelBundle) : Q :=
  rnd (fold_left (fun acc wp => rnd (acc + rnd (fst wp * snd wp)))
         (zip (weights b) (base_probabilities v b)) 0
       / Qsum (weights b)).

(** The unit roundoff of binary64 and the standard model of rounding:
    every rounded result is within that relative error of the exact one. *)
Definition unit_roundoff : Q := 1 # 9007199254740992.

Definition standard_model (rnd : Q -> Q) : Prop :=
  forall x, Qabs (rnd x - x) <= unit_roundoff * Qabs x.

(** Modelled from the spec: loading fails with ModelLoadError when the
    feature order of the bundle is not the one derive produces. *)
Definition load (b : ModelBundle) : result ModelBundle :=
  if decide (feature_names b = feature_order) then Ok b else Err ModelLoadError.

(** A bundle whose classifiers return probabilities and whose weights can
    be averaged with. *)
Definition well_formed (b : ModelBundle) : Prop :=
  length (classifiers b) = length (weights b) /\
  Forall (fun w => 0 <= w) (weights b) /\
  0 < Qsum (weights b) /\
  Forall (fun c => forall v, 0 <= proba c v <= 1) (classifiers b).

(** The ensemble of the training script: three classifiers combined by
    soft voting with weights 2, 1 and 1. *)
Definition voting_ensemble (xgb rf gb : Classifier) (n : Normalization)
    (refs : list Reference) : ModelBundle :=
  {| classifiers := [xgb; rf; gb]; weights := [2; 1; 1];
     feature_names := feature_order; version := "2.0.0"; trained_at := "";
     normalization := n; reference := refs |}.

(** A classifier that returns the same probability on every vector. *)
Definition constant_classifier (p : Q) : Classifier :=
  {| proba := fun _ => p; importances := [] |}.

(** Retraining replaces the weights of a bundle. *)
Definition with_weights (b : ModelBundle) (ws : list Q) : ModelBundle :=
  {| classifiers := classifiers b; weights := ws;
     feature_names := feature_names b; version := version b;
     trained_at := trained_at b; normalization := normalization b;
     reference := reference b |}.

(** *** RiskExplainer *)

Record Candidate := {
  cand_index : nat;
  cand_name : string;
  cand_contribution : Q
}.

(** Modelled from the spec: the importance of a feature is the average of
    the classifiers' importance scores. *)
Definition importance (b : ModelBundle) (i : nat) : Q :=
  Qsum (map (fun c => nth i (importances c) 0) (classifiers b))
  / inject_Z (Z.of_nat (length (classifiers b))).

Definition neutral_reference : Reference :=
  {| ref_mean := 0; ref_scale := 1; ref_direction := 1 |}.

(** Modelled from the spec: how far the value sits from the reference
    mean, in units of the reference scale, counted positive in the
    direction that pushes toward churn. *)
Definition normalized_deviation (x : Q) (ref : Reference) : Q :=
  ref_direction ref * (x - ref_mean ref) / ref_scale ref.

(** Modelled from the spec: contribution = importance * normalized
    deviation, for every feature in declaration order. *)
Definition candidates (v : FeatureVector) (b : ModelBundle) : list Candidate :=
  imap (fun i nx =>
          {| cand_index := i; cand_name := fst nx;
             cand_contribution :=
               importance b i
               * normalized_deviation (snd nx) (nth i (reference b) neutral_reference) |})
       v.

Definition pushes_toward_churn (c : Candidate) : bool :=
  negb (Qle_bool (cand_contribution c) 0).

(** Modelled from the spec: descending contribution, ties resolved by the
    declaration order. *)
Definition ranks_before (a c : Candidate) : bool :=
  negb (Qle_bool (cand_contribution a) (cand_contribution c))
  || (Qeq_bool (cand_contribution a) (cand_contribution c)
      && (cand_index a <=? cand_index c)%nat).


Fixpoint insert_ranked (c : Candidate) (l : list Candidate) : list Candidate :=
  match l with
  | [] => [c]
  | d :: l' => if ranks_before c d then c :: l else d :: insert_ranked c l'
  end.

Definition rank (l : list Candidate) : list Candidate :=
  fold_right insert_ranked [] l.

Fixpoint label_of (table : list (string * string)) (name : string) : string :=
  match table with
  | [] => name
  | (k, l) :: rest => if String.eqb k name then l else label_of rest name
  end.

Definition to_factor (table : list (string * string)) (c : Candidate) : RiskFactor :=
  {| feature_name := cand_name c; human_label := label_of table (cand_name c);
     contribution_score := cand_contribution c |}.

(** Modelled from the spec: explain of section 4.3: the factors that push
    toward churn, ranked, at most five, each with its label. *)
Definition explain (pol : Policy) (v : FeatureVector) (p : Q) (b : ModelBundle) :
    list RiskFactor :=
  map (to_factor (labels pol))
      (take 5 (rank (filter pushes_toward_churn (candidates v b)))).

(** *** StrategyGenerator *)

Fixpoint dedup (seen : list string) (l : list StrategyAction) : list StrategyAction :=
  match l with
  | [] => []
  | a :: l' =>
      if existsb (String.eqb (action a)) seen then dedup seen l'
      else a :: dedup (action a :: seen) l'
  end.

(** Modelled from the spec: generate of section 4.4: the rules are
    evaluated in table order, the actions deduplicated by action type and
    capped. *)
Definition generate (pol : Policy) (level : RiskLevel)
    (factors : list RiskFactor) (r : CustomerRecord) : list StrategyAction :=
  take (max_actions pol)
       (dedup [] (map emits (filter (fun rule => applies rule level factors r)
                                    (rules pol)))).

Definition dominant (name : string) (factors : list RiskFactor) : bool :=
  existsb (fun f => String.eqb (feature_name f) name) factors.

(** Modelled from the spec: the two rules section 4.4 spells out. *)
Definition default_rules : list Rule :=
  [{| applies := fun _ factors r =>
        dominant "payment_risk" factors
        && String.eqb (payment_method r) "Electronic check";
      emits := {| action := "auto-payment incentive"; priority := High;
                  details := "Offer an incentive for automatic payment";
                  expected_impact := "" |} |};
   {| applies := fun _ factors r =>
        dominant "contract_stability" factors
        && String.eqb (contract r) "Month-to-month";
      emits := {| action := "long-term contract upgrade"; priority := High;
                  details := "Offer an upgrade to a long-term contract";
                  expected_impact := "" |} |}].

Definition default_policy : Policy :=
  {| labels := [("payment_risk", "Payment method risk");
                ("contract_stability", "Contract stability")];
     rules := default_rules; max_actions := 3;
     decision_threshold := 1 # 2; medium_threshold := 1 # 2;
     high_threshold := 7 # 10 |}.

(** *** PredictionService *)

(** Modelled from the spec: the risk level, from fixed thresholds. *)
Definition risk_level_of (pol : Policy) (p : Q) : RiskLevel :=
  if negb (Qle_bool p (high_threshold pol)) then RiskHigh
  else if Qle_bool (medium_threshold pol) p then RiskMedium
  else RiskLow.

(** Modelled from the spec: PredictionResult as section 6 assembles it
    from the feature vector and the ranked risk factors: the probability,
    the decision, the risk level, the suggestions generated from the level
    and the factors, the model version and the confidence. *)
Definition assemble (pol : Policy) (b : ModelBundle) (r : CustomerRecord)
    (v : FeatureVector) (factors : list RiskFactor) : PredictionResult :=
  let p := score v b in
  let level := risk_level_of pol p in
  {| churn_probability := p;
     prediction := if negb (Qle_bool p (decision_threshold pol)) then Yes else No;
     risk_level := level;
     risk_factors := factors;
     suggestions := generate pol level factors r;
     model_version := version b;
     confidence := Qabs (p - (1 # 2)) * 2 |}.

(** Modelled from the spec: predict of section 6: validate and derive,
    score, explain, generate. *)
Definition predict (pol : Policy) (b : ModelBundle) (r : CustomerRecord) :
    result PredictionResult :=
  v ← derive (normalization b) r;
  mret (assemble pol b r v (explain pol v (score v b) b)).


(** *** StatisticalAnalyzer *)

Record Member := { record : CustomerRecord; churned : bool }.

Definition Population : Type := list Member.

Record Segment := { label : string; churn_rate : Q }.

Record SegmentRule := {
  seg_label : string;
  seg_member : CustomerRecord -> bool
}.

Inductive TestKind := ChiSquare | MannWhitneyU.

Record StatisticalTestResult := {
  variable : string;
  test_kind : TestKind;
  statistic : Q;
  p_value : Q;
  significant : bool
}.

(** A percentage with one decimal. *)
Definition round1 (q : Q) : Q := inject_Z (Qfloor (q * 10 + (1 # 2))) / 10.

Definition size_Q {A : Type} (l : list A) : Q := inject_Z (Z.of_nat (length l)).

Definition churn_rate_pct (g : Population) : Q :=
  round1 (100 * size_Q (filter churned g) / size_Q g).

(** Modelled from the spec: a segment's churn rate; InsufficientDataError
    when the segment has fewer members than the minimum sample size. *)
Definition segment_stat (min_sample : nat) (rule : SegmentRule) (pop : Population) :
    result Segment :=
  let members := filter (fun m => seg_member rule (record m)) pop in
  if (length members <? min_sample)%nat
  then Err (InsufficientDataError (seg_label rule) (length members))
  else Ok {| label := seg_label rule; churn_rate := churn_rate_pct members |}.

(** Modelled from the spec: the three composite segments of section 4.5. *)
Definition default_segments : list SegmentRule :=
  [{| seg_label := "Month-to-month + Electronic check";
      seg_member := fun r => String.eqb (contract r) "Month-to-month"
                             && String.eqb (payment_method r) "Electronic check" |};
   {| seg_label := "Fiber optic + no online security";
      seg_member := fun r => String.eqb (internet_service r) "Fiber optic"
                             && negb (String.eqb (online_security r) "Yes") |};
   {| seg_label := "Tenure < 6 months";
      seg_member := fun r => (tenure r <? 6)%Z |}].

(** The two groups every test compares. *)
Definition churned_group (pop : Population) : Population := filter churned pop.
Definition retained_group (pop : Population) : Population :=
  filter (fun m => negb (churned m)) pop.

(** The group of a test that is too small, if any. *)
Definition undersized (min_sample : nat) (pop : Population) : option nat :=
  if (length (churned_group pop) <? min_sample)%nat
  then Some (length (churned_group pop))
  else if (length (retained_group pop) <? min_sample)%nat
  then Some (length (retained_group pop))
  else None.

(** Modelled from the spec: the Mann-Whitney U statistic, the number of
    pairs in which the first sample is larger, a tie counting one half. *)
Definition U_statistic (xs ys : list Q) : Q :=
  Qsum (flat_map (fun x =>
          map (fun y => if negb (Qle_bool x y) then 1
                        else if Qeq_bool x y then 1 # 2 else 0) ys) xs).

(** Modelled from the spec: the chi-square statistic of a 2 x k table,
    given as the pairs (churned, retained) of the categories. *)
Definition chi_square_statistic (table : list (Q * Q)) : Q :=
  let yes_total := Qsum (map fst table) in
  let no_total := Qsum (map snd table) in
  let total := yes_total + no_total in
  Qsum (map (fun cell =>
          let col := fst cell + snd cell in
          let e_yes := yes_total * col / total in
          let e_no := no_total * col / total in
          (fst cell - e_yes) * (fst cell - e_yes) / e_yes
          + (snd cell - e_no) * (snd cell - e_no) / e_no) table).

Definition contingency (categories : list string) (value : CustomerRecord -> string)
    (pop : Population) : list (Q * Q) :=
  map (fun c =>
         let col := filter (fun m => String.eqb (value (record m)) c) pop in
         (size_Q (churned_group col), size_Q (retained_group col)))
      categories.

Section Tests.

(** The p-value of a chi-square statistic with the given degrees of
    freedom, and of a U statistic for the given sample sizes. *)
Variable chi_square_p : Q -> nat -> Q.
Variable mann_whitney_p : Q -> nat -> nat -> Q.

(** Modelled from the spec: the distribution-difference test of a
    continuous variable. *)
Definition mann_whitney_test (min_sample : nat) (name : string)
    (value : CustomerRecord -> Q) (pop : Population) : result StatisticalTestResult :=
  match undersized min_sample pop with
  | Some n => Err (InsufficientDataError name n)
  | None =>
      let xs := map (fun m => value (record m)) (churned_group pop) in
      let ys := map (fun m => value (record m)) (retained_group pop) in
      let u := U_statistic xs ys in
      let p := mann_whitney_p u (length xs) (length ys) in
      Ok {| variable := name; test_kind := MannWhitneyU; statistic := u;
            p_value := p; significant := negb (Qle_bool (5 # 100) p) |}
  end.

(** Modelled from the spec: the association test of a categorical
    variable, with k - 1 degrees of freedom. *)
Definition chi_square_test (min_sample : nat) (name : string)
    (categories : list string) (value : CustomerRecord -> string)
    (pop : Population) : result StatisticalTestResult :=
  match undersized min_sample pop with
  | Some n => Err (InsufficientDataError name n)
  | None =>
      let x := chi_square_statistic (contingency categories value pop) in
      let p := chi_square_p x (length categories - 1) in
      Ok {| variable := name; test_kind := ChiSquare; statistic := x;
            p_value := p; significant := negb (Qle_bool (5 # 100) p) |}
  end.

End Tests.

(** Sample data: normalisation constants, a month-to-month customer who
    pays by electronic check, the same customer with a contract value or
    an add-on value outside the vocabulary, and a population of three
    customers. *)
Definition sample_normalization : Normalization :=
  {| MAX_MONTHLY := 120; MAX_TOTAL := 9000; tenure_bounds := [12; 24; 48; 60]%Z;
     high_monthly := 70 |}.

Definition sample_importances : list Q :=
  [1 # 20; 1 # 20; 1 # 20; 226 # 1000; 16 # 1000; 22 # 1000; 1 # 20; 1 # 20;
   142 # 1000].

Definition sample_classifier (p : Q) : Classifier :=
  {| proba := fun _ => p; importances := sample_importances |}.

Definition sample_reference : list Reference :=
  [{| ref_mean := 50; ref_scale := 25; ref_direction := -1 |};
   {| ref_mean := 4; ref_scale := 2; ref_direction := -1 |};
   {| ref_mean := 2; ref_scale := 2; ref_direction := -1 |};
   {| ref_mean := 17 # 10; ref_scale := 8 # 10; ref_direction := -1 |};
   {| ref_mean := 18 # 10; ref_scale := 9 # 10; ref_direction := 1 |};
   {| ref_mean := 2; ref_scale := 1; ref_direction := -1 |};
   {| ref_mean := 1; ref_scale := 1; ref_direction := -1 |};
   {| ref_mean := 1 # 10; ref_scale := 1; ref_direction := 1 |};
   {| ref_mean := 3 # 10; ref_scale := 1; ref_direction := 1 |}].

Definition sample_bundle : ModelBundle :=
  voting_ensemble (sample_classifier (9 # 10)) (sample_classifier (7 # 10))
    (sample_classifier (1 # 2)) sample_normalization sample_reference.

Definition sample_record : CustomerRecord :=
  {| gender := "Female"; partner := "No"; dependents := "No";
     phone_service := "Yes"; multiple_lines := "No";
     internet_service := "Fiber optic"; contract := "Month-to-month";
     payment_method := "Electronic check"; paperless_billing := "Yes";
     online_security := "No"; online_backup := "No";
     device_protection := "No"; tech_support := "No"; streaming_tv := "No";
     streaming_movies := "No"; senior_citizen := 0; tenure := 2;
     monthly_charge := 70; total_charge := 140 |}.

Definition with_contract (r : CustomerRecord) (c : string) : CustomerRecord :=
  {| gender := gender r; partner := partner r; dependents := dependents r;
     phone_service := phone_service r; multiple_lines := multiple_lines r;
     internet_service := internet_service r; contract := c;
     payment_method := payment_method r;
     paperless_billing := paperless_billing r;
     online_security := online_security r; online_backup := online_backup r;
     device_protection := device_protection r; tech_support := tech_support r;
     streaming_tv := streaming_tv r; streaming_movies := streaming_movies r;
     senior_citizen := senior_citizen r; tenure := tenure r;
     monthly_charge := monthly_charge r; total_charge := total_charge r |}.

Definition with_tech_support (r : CustomerRecord) (s : string) : CustomerRecord :=
  {| gender := gender r; partner := partner r; dependents := dependents r;
     phone_service := phone_service r; multiple_lines := multiple_lines r;
     internet_service := internet_service r; contract := contract r;
     payment_method := payment_method r;
     paperless_billing := paperless_billing r;
     online_security := online_security r; online_backup := online_backup r;
     device_protection := device_protection r; tech_support := s;
     streaming_tv := streaming_tv r; streaming_movies := streaming_movies r;
     senior_citizen := senior_citizen r; tenure := tenure r;
     monthly_charge := monthly_charge r; total_charge := total_charge r |}.

Definition sample_population : Population :=
  [{| record := sample_record; churned := true |};
   {| record := sample_record; churned := true |};
   {| record := sample_record; churned := false |}].

(** Modelled from the spec: the segment part of getAnalysis: every segment
    is reported on its own, as a statistic or as its error. *)
Definition analyse_segments (min_sample : nat) (pop : Population) :
    list (result Segment) :=
  map (fun rule => segment_stat min_sample rule pop) default_segments.

End Engine.

(** ** Further code of the loader, the provider and the React components *)

(** [String.join(",", fields)], the inverse the split pattern is measured
    against, and two measures of a line. *)
Module Csv.
Import JavaString.

Fixpoint join (fields : list string) : string :=
  match fields with
  | [] => EmptyString
  | [f] => f
  | f :: rest => String.append f (String "," (join rest))
  end.

Fixpoint count_char (c : ascii) (s : string) : nat :=
  match s with
  | EmptyString => 0%nat
  | String d s' => ((if Ascii.eqb d c then 1 else 0) + count_char c s')%nat
  end.

(** No character of the string is [<= ' ']. *)
Fixpoint blank_free (s : string) : bool :=
  match s with
  | EmptyString => true
  | String c s' => negb (le_space c) && blank_free s'
  end.

Definition comma : ascii := ",".
Definition quote : ascii := ascii_of_nat 34.

End Csv.

(** ** The settled and the rendering states of the authentication provider *)
Module AuthSession.
Import Auth.

(** The state in which the provider has settled on token [t] with the
    local storage holding [stored]: the effect has run for [t], so the
    user and the header follow from it. *)
Definition settled (t : token_value) (stored : option string) : State :=
  {| token := t;
     user := if truthy t then Some admin else None;
     Authorization := if truthy t then Some (bearer t) else None;
     storage := stored;
     effect_dep := Some t |}.

(** The states in which the provider renders before a commit that can
    mount [MainContent]: its first render, and the render a login
    schedules, after [setToken] and [setItem] have run.  The mount effect
    of a child runs in that commit before the effect of the provider, so it
    sees such a state, not yet the committed one. *)
Inductive rendering (v : version) (stored : option string) : State -> Prop :=
| rendering_first :
    rendering v stored (first_render v stored)
| rendering_login (s : State) (access_token : token_value) :
    reachable v stored s ->
    rendering v stored (setItem access_token (setToken access_token s)).

End AuthSession.

(** ** [Login.jsx] and the root of [App.jsx] *)
Module LoginForm.

(** The four state cells of the [Login] component. *)
Record Form := {
  username : string;
  password : string;
  error : string;
  isLoading : bool
}.

Definition initial : Form :=
  {| username := ""; password := ""; error := ""; isLoading := false |}.

(** [handleSubmit]: [setIsLoading(true)], [setError('')], then
    [await login(username, password)]; when [login] returns, the error is
    set on [false] and [setIsLoading(false)] runs; when [login] throws, the
    rest of the handler does not run. *)
Definition handleSubmit (v : Auth.version) (resp : Auth.token_response)
    (f : Form) (s : Auth.State) : Form * Auth.State :=
  let '(s', outcome) := Auth.login v resp s in
  match outcome with
  | Auth.Returned success =>
      ({| username := username f; password := password f;
          error := if success then "" else "Invalid credentials";
          isLoading := false |}, s')
  | Auth.Thrown =>
      ({| username := username f; password := password f;
          error := ""; isLoading := true |}, s')
  end.

(** [AppContent]: [isAuthenticated ? <MainContent /> : <Login />]. *)
Inductive Screen := MainScreen | LoginScreen.

Definition AppContent (s : Auth.State) : Screen :=
  if Auth.isAuthenticated s then MainScreen else LoginScreen.

End LoginForm.

(** ** [MainContent] of [App.jsx]: the tabs and the initial fetch *)
Module MainContent.
Import JS.

Inductive Tab := dashboard | strategy | predictor.

Record State := {
  activeTab : Tab;
  stats : value;
  analysis : value
}.

Definition initial : State :=
  {| activeTab := dashboard; stats := Null; analysis := Null |}.

(** A GET request with its [Authorization] header. *)
Record Request := { url : string; authorization : string }.

(** How a request ends. *)
Inductive Response :=
| Fulfilled (data : value)
| Failed.

(** [fetchStats]: nothing happens without a token in the local storage;
    otherwise both requests are sent with the header built from that
    token, and [Promise.all] sets the two state cells when both requests
    are fulfilled and neither when one fails. *)
Definition fetchStats (stored : option string) (resStats resAnalysis : Response)
    (s : State) : State * list Request :=
  match stored with
  | None => (s, [])
  | Some EmptyString => (s, [])
  | Some token =>
      let header := String.append "Bearer " token in
      let requests := [{| url := "/api/stats"; authorization := header |};
                       {| url := "/api/analysis"; authorization := header |}] in
      match resStats, resAnalysis with
      | Fulfilled dataStats, Fulfilled dataAnalysis =>
          ({| activeTab := activeTab s; stats := dataStats;
              analysis := dataAnalysis |}, requests)
      | _, _ => (s, requests)
      end
  end.

End MainContent.

(** ** [ToastContext.jsx] *)
Module Toast.

Record toast := { id : Z; message : string; type : string }.

(** The list of toasts and the pending timers, each with the time it is
    due and the id it removes. *)
Record State := {
  toasts : list toast;
  timers : list (Z * Z)
}.

Definition initial : State := {| toasts := []; timers := [] |}.

(** [prev.filter(t => t.id !== id)]. *)
Definition without (i : Z) (l : list toast) : list toast :=
  List.filter (fun t => negb (id t =? i)) l.

(** [removeToast(id)]. *)
Definition removeToast (i : Z) (s : State) : State :=
  {| toasts := without i (toasts s); timers := timers s |}.

(** The delay of [setTimeout(handler, duration)] in a browser: the
    duration is converted to a 32-bit signed integer, modulo 2^32, and a
    negative result counts as zero. *)
Definition ToInt32 (n : Z) : Z := (n + 2 ^ 31) mod 2 ^ 32 - 2 ^ 31.

Definition timeout_delay (duration : Z) : Z := Z.max 0 (ToInt32 duration).

(** [addToast(message, type, duration)] at time [now] ([Date.now()]): the
    toast takes the time as its id and a timer is set to remove that id
    after the delay of [duration]. *)
Definition addToast (now : Z) (msg ty : string) (duration : Z) (s : State) : State :=
  {| toasts := toasts s ++ [{| id := now; message := msg; type := ty |}];
     timers := timers s ++ [(now + timeout_delay duration, now)] |}.

(** The defaults of [addToast]: type [info], four seconds. *)
Definition default_type : string := "info".
Definition default_duration : Z := 4000.

(** The clock reaches [t]: every timer that is due runs its removal and
    is gone. *)
Definition advance (t : Z) (s : State) : State :=
  {| toasts := fold_left (fun l timer => without (snd timer) l)
                 (List.filter (fun timer => fst timer <=? t) (timers s))
                 (toasts s);
     timers := List.filter (fun timer => negb (fst timer <=? t)) (timers s) |}.

End Toast.

(** ** The form of the [Predictor] component *)
Module PredictorForm.
Import JS Predictor.

(** The four controls of the form, each with the text of the event target. *)
Inductive Event :=
| ChangeContract (value : string)
| ChangePaymentMethod (value : string)
| ChangeInternetService (value : string)
| ChangeTenure (value : string).

(** The [onChange] handlers: each copies [formData] and replaces one field. *)
Definition onChange (formData : FormData) (e : Event) : FormData :=
  match e with
  | ChangeContract v =>
      {| gender := gender formData; SeniorCitizen := SeniorCitizen formData;
         Partner := Partner formData; Dependents := Dependents formData;
         tenure := tenure formData; PhoneService := PhoneService formData;
         MultipleLines := MultipleLines formData;
         InternetService := InternetService formData;
         OnlineSecurity := OnlineSecurity formData;
         OnlineBackup := OnlineBackup formData;
         DeviceProtection := DeviceProtection formData;
         TechSupport := TechSupport formData;
         StreamingTV := StreamingTV formData;
         StreamingMovies := StreamingMovies formData;
         Contract := v;
         PaperlessBilling := PaperlessBilling formData;
         PaymentMethod := PaymentMethod formData;
         MonthlyCharges := MonthlyCharges formData;
         TotalCharges := TotalCharges formData |}
  | ChangePaymentMethod v =>
      {| gender := gender formData; SeniorCitizen := SeniorCitizen formData;
         Partner := Partner formData; Dependents := Dependents formData;
         tenure := tenure formData; PhoneService := PhoneService formData;
         MultipleLines := MultipleLines formData;
         InternetService := InternetService formData;
         OnlineSecurity := OnlineSecurity formData;
         OnlineBackup := OnlineBackup formData;
         DeviceProtection := DeviceProtection formData;
         TechSupport := TechSupport formData;
         StreamingTV := StreamingTV formData;
         StreamingMovies := StreamingMovies formData;
         Contract := Contract formData;
         PaperlessBilling := PaperlessBilling formData;
         PaymentMethod := v;
         MonthlyCharges := MonthlyCharges formData;
         TotalCharges := TotalCharges formData |}
  | ChangeInternetService v =>
      {| gender := gender formData; SeniorCitizen := SeniorCitizen formData;
         Partner := Partner formData; Dependents := Dependents formData;
         tenure := tenure formData; PhoneService := PhoneService formData;
         MultipleLines := MultipleLines formData;
         InternetService := v;
         OnlineSecurity := OnlineSecurity formData;
         OnlineBackup := OnlineBackup formData;
         DeviceProtection := DeviceProtection formData;
         TechSupport := TechSupport formData;
         StreamingTV := StreamingTV formData;
         StreamingMovies := StreamingMovies formData;
         Contract := Contract formData;
         PaperlessBilling := PaperlessBilling formData;
         PaymentMethod := PaymentMethod formData;
         MonthlyCharges := MonthlyCharges formData;
         TotalCharges := TotalCharges formData |}
  | ChangeTenure v => onChangeTenure formData v
  end.

(** The fields of the form that no control edits. *)
Definition fixed_fields (fd : FormData) :=
  (gender fd, SeniorCitizen fd, Partner fd, Dependents fd, PhoneService fd,
   MultipleLines fd, OnlineSecurity fd, OnlineBackup fd, DeviceProtection fd,
   TechSupport fd, StreamingTV fd, StreamingMovies fd, PaperlessBilling fd,
   MonthlyCharges fd, TotalCharges fd).

(** The form after a sequence of events, from its initial state. *)
Definition after (events : list Event) : FormData :=
  fold_left onChange events initialFormData.

(** An event a [select] control can produce: its value is one of the
    options of the control. *)
Definition from_options (e : Event) : Prop :=
  match e with
  | ChangeContract v => In v contract_options
  | ChangePaymentMethod v => In v payment_options
  | ChangeInternetService v => In v internet_options
  | ChangeTenure _ => True
  end.

(** An event whose text, if it is typed into the tenure input, has at most
    fifteen characters: [parseInt] reads such a text exactly. *)
Definition short_text (e : Event) : Prop :=
  match e with
  | ChangeTenure v => (String.length v <= 15)%nat
  | _ => True
  end.

End PredictorForm.

(** ** The result card of the [Predictor] component

    [result] holds [res.data] as axios hands it over: a parsed JSON value,
    whose numbers are binary64 values, or [null] before the first
    response.  An object is given by its own properties, each key once. *)
Module ResultCard.

#[warnings="-register-all"] Inductive value :=
| Undefined
| Null
| Boolean (b : bool)
| Number (x : float)
| Str (s : string)
| Array (items : list value)
| Object (fields : list (string * value)).

Definition is_nan (x : float) : bool := negb (PrimFloat.eqb x x).

(** Truthiness of a value ([cond ? a : b], [a || b]). *)
Definition truthy (v : value) : bool :=
  match v with
  | Undefined | Null => false
  | Boolean b => b
  | Number x => negb (PrimFloat.eqb x 0%float || is_nan x)
  | Str s => negb (JavaString.isEmpty s)
  | Array _ | Object _ => true
  end.

Fixpoint lookup_field (k : string) (fields : list (string * value)) : value :=
  match fields with
  | [] => Undefined
  | (k', v) :: rest => if String.eqb k k' then v else lookup_field k rest
  end.

(** Property access [v.k] on a truthy value, for the three keys the card
    reads: an object gives its own property, and no other value has one of
    these. *)
Definition get (v : value) (k : string) : value :=
  match v with
  | Object fields => lookup_field k fields
  | _ => Undefined
  end.

(** [ToNumber] on the values that need no string parsing; [None] for
    strings, arrays and objects, whose conversion is not modelled. *)
Definition ToNumber (v : value) : option float :=
  match v with
  | Undefined => Some nan
  | Null => Some 0%float
  | Boolean b => Some (if b then 1%float else 0%float)
  | Number x => Some x
  | Str _ | Array _ | Object _ => None
  end.

(** What React accepts as a child: text, numbers, the values it renders as
    nothing, and arrays of such; a plain object is not a valid child and
    makes the render throw. *)
Fixpoint renderable (v : value) : bool :=
  match v with
  | Object _ => false
  | Array items => forallb renderable items
  | _ => true
  end.

Definition Z_to_string (z : Z) : string :=
  NilZero.string_of_uint (N.to_uint (Z.to_N z)).

(** The digits of [n / 10] with one decimal. *)
Definition one_decimal (n : Z) : string :=
  String.append (Z_to_string (n / 10))
    (String.append "." (Z_to_string (n mod 10))).

(** The integer nearest to [a * 10], the larger one on a tie. *)
Definition nearest_tenth (a : Q) : Z := Qfloor (a * 10 + (1 # 2))%Q.

(** [x.toFixed(1)]: the text of a value that is not finite; otherwise the
    integer nearest to ten times the exact magnitude of [x], printed with
    one decimal after the sign of [x].  [None] for a finite magnitude of
    10^21 or more, which is printed as [String(x)] prints it. *)
Definition toFixed1 (x : float) : option string :=
  match Prim2SF x with
  | S754_nan => Some "NaN"
  | S754_infinity false => Some "Infinity"
  | S754_infinity true => Some "-Infinity"
  | S754_zero _ => Some "0.0"
  | S754_finite negative m e =>
      let a := (inject_Z (Zpos m) * Qpower 2 e)%Q in
      if Qle_bool 1000000000000000000000%Q a then None
      else
        let body := one_decimal (nearest_tenth a) in
        Some (if negative then String.append "-" body else body)
  end.

Inductive color := accent | success.

(** The result panel: the summary, the colour and the text of the score,
    and one entry per suggestion. *)
Record ResultPanel := {
  summary : value;
  score_color : color;
  score_text : string;
  suggestion_items : list value
}.

Inductive View :=
| Placeholder
| Panel (p : ResultPanel).

(** What rendering the card comes to: a view, a thrown error, or a case
    left out of the model. *)
Inductive Outcome :=
| Rendered (v : View)
| Throws
| NotModelled.

(** [(result.suggestions || []).map(...)]: the list that [map] walks;
    [None] when the value is truthy and no array, where [map] is not a
    function and the call throws. *)
Definition suggestions_of (result : value) : option (list value) :=
  let s := get result "suggestions" in
  if truthy s then
    match s with
    | Array items => Some items
    | _ => None
    end
  else Some [].

(** The right-hand card of the component: the placeholder while [result]
    is falsy, otherwise the panel built from [result.summary],
    [result.churn_risk_score] and [result.suggestions].  The render throws
    when the suggestions cannot be mapped over or when the summary or a
    suggestion is no valid child.  Not modelled: a score that is a string,
    an array or an object, and a percentage of 10^21 or more. *)
Definition render (result : value) : Outcome :=
  if truthy result then
    match suggestions_of result with
    | None => Throws
    | Some items =>
        if renderable (get result "summary") && forallb renderable items then
          match ToNumber (get result "churn_risk_score") with
          | Some score =>
              match toFixed1 (score * 100)%float with
              | Some text =>
                  Rendered (Panel {|
                    summary := get result "summary";
                    score_color :=
                      if PrimFloat.ltb 0.5%float score then accent else success;
                    score_text := String.append text "%";
                    suggestion_items := items |})
              | None => NotModelled
              end
          | None => NotModelled
          end
        else Throws
    end
  else Rendered Placeholder.

(** Sample responses: one with the keys the component reads and texts as
    suggestions; the same probability under the field name of the
    specification's PredictionResult; and that one with the suggestions as
    records. *)
#[warnings="-inexact-float"]
Definition response_v1 : value :=
  Object [("churn_risk_score", Number 0.8%float);
          ("prediction", Str "Yes");
          ("summary", Str "High Risk");
          ("suggestions", Array [Str "Offer a long-term contract";
                                 Str "Promote automatic payment"])].

#[warnings="-inexact-float"]
Definition response_renamed : value :=
  Object [("churn_probability", Number 0.8%float);
          ("prediction", Str "Yes");
          ("summary", Str "High Risk");
          ("suggestions", Array [Str "Offer a long-term contract"])].

Definition strategy_action (action priority details impact : string) : value :=
  Object [("action", Str action); ("priority", Str priority);
          ("details", Str details); ("expected_impact", Str impact)].

#[warnings="-inexact-float"]
Definition response_as_specified : value :=
  Object [("churn_probability", Number 0.8%float);
          ("prediction", Str "Yes");
          ("risk_level", Str "High");
          ("suggestions",
            Array [strategy_action "Long-term contract upgrade" "High"
                     "Offer a one-year contract" "-15%"])].

#[warnings="-inexact-float"]
Definition response_small : value :=
  Object [("churn_risk_score", Number 0.0015%float);
          ("summary", Str "Low Risk")].

End ResultCard.

(** * Properties of the authentication provider *)
Module AuthFacts.
Import Auth.

Lemma same_value_eq (a b : token_value) : same_value a b = true -> a = b.
Proof.
  destruct a, b; simpl; try discriminate; try reflexivity.
  intros ->%String.eqb_eq. reflexivity.
Qed.

Lemma truthy_present (s : State) : truthy (token s) = true <-> token_present s.
Proof.
  unfold token_present. split.
  - destruct (token s) as [| |tok]; simpl; try discriminate.
    destruct tok; [discriminate|]. intros _. eexists. split; [reflexivity|discriminate].
  - intros (tok & -> & Hne). destruct tok; [now elim Hne|reflexivity].
Qed.

Lemma effect_synced (s : State) : synced (effect s).
Proof.
  unfold effect, synced. destruct (truthy (token s)) eqn:Ht; simpl; rewrite Ht; auto.
Qed.

(** A commit brings the state in sync, provided the state was in sync for
    the token the effect last ran with. *)
Lemma commit_synced (s : State) :
  (forall t, effect_dep s = Some t -> same_value t (token s) = true -> synced s) ->
  synced (commit s).
Proof.
  unfold commit. intros Hs. destruct (effect_dep s) as [t|] eqn:Hd.
  - destruct (same_value t (token s)) eqn:Hv; [now apply (Hs t)|apply effect_synced].
  - apply effect_synced.
Qed.

Lemma mount_synced (v : version) (stored : option string) : synced (mount v stored).
Proof.
  unfold mount. apply commit_synced. destruct v; simpl; discriminate.
Qed.

Lemma setToken_synced (t : token_value) (s : State)
    (update : State -> State) :
  (forall x, token (update x) = token x /\ user (update x) = user x /\
             Authorization (update x) = Authorization x /\
             effect_dep (update x) = effect_dep x) ->
  synced s -> synced (commit (update (setToken t s))).
Proof.
  intros Hu (Hd & Hh & Hus). apply commit_synced. intros t0 Hd0 Hv.
  destruct (Hu (setToken t s)) as (Ht & Hu' & Hh' & Hd').
  rewrite Hd' in Hd0. simpl in Hd0. rewrite Hd in Hd0. injection Hd0 as <-.
  rewrite Ht in Hv. simpl in Hv. apply same_value_eq in Hv.
  unfold synced. rewrite Ht, Hu', Hh', Hd'. simpl. rewrite <- Hv. auto.
Qed.

Lemma step_synced (v : version) (s s' : State) :
  step v s s' -> synced s -> synced s'.
Proof.
  intros [resp s0|s0] Hs.
  - destruct resp as [tok|]; simpl; [|assumption].
    apply setToken_synced; [|assumption]. intros x. simpl. auto.
  - unfold logout. apply setToken_synced; [|assumption]. intros x. simpl. auto.
Qed.

Lemma synced_invariant (s : State) : synced s -> invariant s.
Proof.
  intros (_ & Hh & _). unfold invariant, isAuthenticated.
  pose proof (truthy_present s) as Hp. repeat split.
  - apply Hp.
  - apply Hp.
  - intros Hpres. apply Hp in Hpres. now rewrite Hpres in Hh.
  - intros Hn. destruct (truthy (token s)); [|assumption].
    elim Hn. now apply Hp.
Qed.

(** C10: in every state the provider reaches, from mounting (either version,
    any content of the local storage) through any sequence of logins and
    logouts, [isAuthenticated] is true exactly when a token is present, and
    the axios [Authorization] header is [Bearer <token>] exactly when a token
    is present and is absent otherwise. *)
Theorem auth_invariant (v : version) (stored : option string) (s : State) :
  reachable v stored s -> invariant s.
Proof.
  intros Hr. apply synced_invariant.
  induction Hr as [|s s' _ IH Hstep].
  - apply mount_synced.
  - eapply step_synced; eassumption.
Qed.

(** A session: mount with an empty storage, log in, log out. *)
Lemma auth_invariant_witness :
  invariant (logout (fst (login Original (Granted (TString "abc")) (mount Original None)))).
Proof.
  apply (auth_invariant Original None).
  eapply reachable_step; [eapply reachable_step; [apply reachable_mount|]|].
  - apply (step_login Original (Granted (TString "abc"))).
  - apply step_logout.
Defined.

End AuthFacts.
(** * Properties of the CSV loader *)
Module LoaderFacts.
Import JavaString DataLoader.

Lemma trim_left_blank (s : string) :
  blank s = true -> trim_left s = EmptyString.
Proof.
  induction s as [|c s IH]; simpl; [reflexivity|].
  intros [Hc Hs]%andb_true_iff. rewrite Hc. auto.
Qed.

Lemma trim_left_head (s : string) :
  blank s = false ->
  exists c t, trim_left s = String c t /\ le_space c = false.
Proof.
  induction s as [|c s IH]; simpl; [discriminate|].
  destruct (le_space c) eqn:Hc; simpl; eauto.
Qed.

Lemma trim_right_head (c : ascii) (t : string) :
  le_space c = false -> exists t', trim_right (String c t) = String c t'.
Proof.
  intros Hc. simpl. rewrite Hc. destruct (trim_right t); eauto.
Qed.

Lemma trim_blank (s : string) : blank s = true -> trim s = EmptyString.
Proof. intros Hb. unfold trim. now rewrite trim_left_blank. Qed.

Lemma trim_not_blank (s : string) :
  blank s = false ->
  exists c t, trim s = String c t /\ le_space c = false.
Proof.
  intros Hb. destruct (trim_left_head s Hb) as (c & t & Hl & Hc).
  unfold trim. rewrite Hl.
  destruct (trim_right_head c t Hc) as [t' Ht']. eauto.
Qed.

(** [trim] leaves the empty string exactly on blank input. *)
Lemma trim_empty_iff_blank (s : string) :
  trim s = EmptyString <-> blank s = true.
Proof.
  split; [|apply trim_blank].
  destruct (blank s) eqn:Hb; [reflexivity|].
  destruct (trim_not_blank s Hb) as (c & t & Ht & _). congruence.
Qed.

Section WithParseDouble.

Variable parseDouble : string -> option float.

Lemma readTotalCharges_blank (field : string) :
  blank field = true -> readTotalCharges parseDouble field = Ok 0%float.
Proof.
  intros Hb. unfold readTotalCharges. now rewrite (trim_blank _ Hb).
Qed.

Lemma readTotalCharges_not_blank (field : string) :
  blank field = false ->
  readTotalCharges parseDouble field = Double_parseDouble parseDouble (trim field).
Proof.
  intros Hb. unfold readTotalCharges.
  destruct (trim_not_blank _ Hb) as (c & t & -> & Hc).
  assert (String.eqb (String c t) " " = false) as He.
  { apply String.eqb_neq. intros [= -> ->]. discriminate. }
  cbn [isEmpty orb]. now rewrite He.
Qed.

(** Inversion of a successful bind in the error monad. *)
Lemma bind_Ok {A B : Type} (m : result A) (f : A -> result B) (b : B) :
  m ≫= f = Ok b -> exists a, m = Ok a /\ f a = Ok b.
Proof. destruct m; simpl; [eauto|discriminate]. Qed.

Lemma at_index_Ok (data : list string) (i : nat) (s : string) :
  at_index data i = Ok s -> data !! i = Some s.
Proof. unfold at_index. destruct (data !! i); congruence. Qed.

Ltac invert_binds H :=
  repeat match type of H with
         | _ ≫= _ = Ok _ =>
             let a := fresh "a" in let Ha := fresh "Ha" in
             apply bind_Ok in H; destruct H as (a & Ha & H)
         end.

(** The numeric fields of a parsed record are the values read from the
    numeric columns of its line. *)
Lemma parseLine_numeric (line : string) (c : Customer) :
  parseLine parseDouble line = Ok c ->
  numeric_columns parseDouble line = Ok (tenure c, monthlyCharges c, totalCharges c).
Proof.
  unfold parseLine, numeric_columns. cbv zeta. intros Hp.
  invert_binds Hp. injection Hp as <-. simpl.
  repeat match goal with
         | Hm : ?m = Ok _ |- context [?m] => rewrite Hm; simpl
         end.
  reflexivity.
Qed.

Lemma parseLine_total_charges (line : string) (c : Customer) :
  parseLine parseDouble line = Ok c -> total_charges_rule parseDouble line c.
Proof.
  intros Hp. apply parseLine_numeric in Hp.
  unfold numeric_columns in Hp. cbv zeta in Hp. invert_binds Hp.
  injection Hp as _ _ Htc. subst.
  match goal with
  | Hm : at_index _ 19 ≫= _ = Ok _ |- _ =>
      apply bind_Ok in Hm; destruct Hm as (field & Hf%at_index_Ok & Hr)
  end.
  exists field. split; [exact Hf|]. split; intros Hb.
  - rewrite (readTotalCharges_blank _ Hb) in Hr. congruence.
  - rewrite (readTotalCharges_not_blank _ Hb) in Hr.
    unfold Double_parseDouble in Hr.
    destruct (parseDouble (trim field)); congruence.
Qed.

(** The loop skips the header line and then parses every line. *)
Lemma readLoop_header (lines : list string) :
  readLoop parseDouble lines true [] = readLoop parseDouble (tail lines) false [].
Proof. destruct lines; reflexivity. Qed.

Lemma readLoop_Ok (lines : list string) :
  forall acc cs,
    readLoop parseDouble lines false acc = Ok cs ->
    exists cs', cs = (acc ++ cs')%list /\
      Forall2 (fun l c => parseLine parseDouble l = Ok c) lines cs'.
Proof.
  induction lines as [|line lines IH]; simpl; intros acc cs Hr.
  - injection Hr as <-. exists []. rewrite app_nil_r. split; constructor.
  - apply bind_Ok in Hr as (c & Hc & Hr).
    apply IH in Hr as (cs' & -> & HF). exists (c :: cs').
    rewrite <- app_assoc. split; [reflexivity|]. constructor; assumption.
Qed.

Lemma readLoop_all_parsed (lines : list string) :
  forall acc cs',
    Forall2 (fun l c => parseLine parseDouble l = Ok c) lines cs' ->
    readLoop parseDouble lines false acc = Ok (acc ++ cs')%list.
Proof.
  induction lines as [|line lines IH]; intros acc cs' HF; inversion HF; subst; simpl.
  - now rewrite app_nil_r.
  - match goal with Hm : parseLine _ _ = Ok _ |- _ => rewrite Hm end. simpl.
    rewrite IH with (cs' := l'); [|assumption]. now rewrite <- app_assoc.
Qed.

Lemma readLoop_Throw (lines : list string) :
  forall acc,
    Exists (fun l => exists e, parseLine parseDouble l = Throw e) lines ->
    exists e, readLoop parseDouble lines false acc = Throw e.
Proof.
  induction lines as [|line lines IH]; intros acc HE; inversion HE; subst; simpl.
  - match goal with Hm : exists _, _ |- _ => destruct Hm as [e ->] end. eauto.
  - destruct (parseLine parseDouble line); simpl; eauto.
Qed.

Section WithRepository.

Context {R : Type} `{CustomerRepository R}.

(** [loadData] has three outcomes: it skips, it fails and leaves the
    repository alone, or it saves the records of all data lines at once. *)
Lemma loadData_cases (resource : option (list string)) (repo : R) :
  (0 < count repo /\ loadData parseDouble resource repo = (repo, Skipped)) \/
  (count repo <= 0 /\ exists e, loadData parseDouble resource repo = (repo, Failed e)) \/
  (count repo <= 0 /\ exists lines customers,
      resource = Some lines /\
      Forall2 (fun l c => parseLine parseDouble l = Ok c) (tail lines) customers /\
      loadData parseDouble resource repo
        = (saveAll repo customers, Loaded (length customers))).
Proof.
  unfold loadData. destruct (0 <? count repo) eqn:Hc.
  - left. split; [lia|reflexivity].
  - right. assert (count repo <= 0) by lia.
    destruct resource as [lines|]; [|left; eauto].
    destruct (readLoop parseDouble lines true []) as [customers|e] eqn:Hr;
      [right|left; eauto].
    split; [assumption|]. exists lines, customers.
    rewrite readLoop_header in Hr.
    apply readLoop_Ok in Hr as (cs' & -> & HF). simpl. auto.
Qed.

(** C3: every record that [loadData] saves was read from a data line of the
    CSV; when the total-charges column of that line is empty or blank the
    record's total charge is exactly [0.0], otherwise it is the value
    [Double.parseDouble] returns on the trimmed column. *)
Theorem loadData_total_charges
    (resource : option (list string)) (repo repo' : R) (n : nat) :
  loadData parseDouble resource repo = (repo', Loaded n) ->
  exists lines customers,
    resource = Some lines /\ repo' = saveAll repo customers /\
    n = length customers /\
    Forall2 (total_charges_rule parseDouble) (tail lines) customers.
Proof.
  intros Hl.
  destruct (loadData_cases resource repo)
    as [[_ Hs]|[[_ [e Hf]]|[_ (lines & customers & -> & HF & Hd)]]];
    try congruence.
  rewrite Hd in Hl. injection Hl as <- <-.
  exists lines, customers. repeat split.
  eapply Forall2_impl; [exact HF|]. intros l c. apply parseLine_total_charges.
Qed.

(** C8: loading is all-or-nothing.  When any data line throws, the
    repository is returned as it was and (unless loading was skipped) the
    failure is reported; and a repository that differs from the one before
    the call was produced by one [saveAll] over the records of all data
    lines, every one of which parsed. *)
Theorem loadData_all_or_nothing (lines : list string) (repo : R) :
  (Exists (fun line => exists e, parseLine parseDouble line = Throw e) (tail lines) ->
     fst (loadData parseDouble (Some lines) repo) = repo /\
     (count repo <= 0 ->
        exists e, snd (loadData parseDouble (Some lines) repo) = Failed e)) /\
  (fst (loadData parseDouble (Some lines) repo) <> repo ->
     exists customers,
       Forall2 (fun l c => parseLine parseDouble l = Ok c) (tail lines) customers /\
       fst (loadData parseDouble (Some lines) repo) = saveAll repo customers).
Proof.
  split.
  - intros HE. unfold loadData. destruct (0 <? count repo) eqn:Hc; simpl.
    + split; [reflexivity|lia].
    + rewrite readLoop_header.
      destruct (readLoop_Throw (tail lines) [] HE) as [e ->]. simpl. eauto.
  - intros Hne.
    destruct (loadData_cases (Some lines) repo)
      as [[_ Hs]|[[_ [e Hf]]|[_ (lines' & customers & [= <-] & HF & Hd)]]].
    + rewrite Hs in Hne. now elim Hne.
    + rewrite Hf in Hne. now elim Hne.
    + exists customers. rewrite Hd. auto.
Qed.

(** C9: on a non-empty repository [loadData] returns at once and leaves it
    as it is, and running [loadData] twice gives the repository that running
    it once gives. *)
Theorem loadData_idempotent
    (saveAll_nil : forall r : R, saveAll r [] = r)
    (saveAll_count : forall (r : R) cs, cs <> [] -> 0 < count (saveAll r cs))
    (resource : option (list string)) (repo : R) :
  (0 < count repo -> loadData parseDouble resource repo = (repo, Skipped)) /\
  fst (loadData parseDouble resource (fst (loadData parseDouble resource repo)))
    = fst (loadData parseDouble resource repo).
Proof.
  split.
  - intros Hc. unfold loadData.
    destruct (0 <? count repo) eqn:Hlt; [reflexivity|lia].
  - destruct (loadData_cases resource repo)
      as [[_ Hs]|[[_ [e Hf]]|[_ (lines & customers & -> & HF & Hd)]]].
    + rewrite Hs. simpl. now rewrite Hs.
    + rewrite Hf. simpl. now rewrite Hf.
    + rewrite Hd. simpl. destruct customers as [|c customers].
      * rewrite saveAll_nil, Hd. simpl. apply saveAll_nil.
      * unfold loadData at 1.
        destruct (0 <? count (saveAll repo (c :: customers))) eqn:Hlt;
          [reflexivity|].
        specialize (saveAll_count repo (c :: customers)). 
        assert (c :: customers <> []) as Hne by discriminate.
        apply saveAll_count in Hne. lia.
Qed.

End WithRepository.

End WithParseDouble.

(** The H2 table obeys the two laws the idempotence argument uses. *)
Lemma table_saveAll_count (t : Table) (cs : list Customer) :
  cs <> [] -> 0 < table_count (table_saveAll t cs).
Proof.
  intros Hne. destruct (exists_last Hne) as (cs' & c & ->).
  unfold table_saveAll, table_count. rewrite foldl_app. simpl.
  set (t' := foldl save t cs').
  assert (rows (save t' c) <> ∅) as Hrows.
  { unfold save. destruct (id_ c); simpl; apply insert_non_empty. }
  apply map_size_non_empty_iff in Hrows. lia.
Qed.

Lemma with_id_invariant (c : Customer) (i : Z) :
  nonneg_invariant c -> nonneg_invariant (with_id c i).
Proof. intros Hc. exact Hc. Qed.






(** Witnesses on the sample files, with the decimal reader for
    [Double.parseDouble]. *)
Lemma loadData_total_charges_witness :
  exists lines customers,
    Some csv_good = Some lines /\
    fst (loadData parseDecimal (Some csv_good) empty_table)
      = saveAll empty_table customers /\
    2%nat = length customers /\
    Forall2 (total_charges_rule parseDecimal) (tail lines) customers.
Proof.
  apply (loadData_total_charges parseDecimal (Some csv_good) empty_table
           (fst (loadData parseDecimal (Some csv_good) empty_table)) 2).
  vm_compute. reflexivity.
Defined.

Lemma loadData_all_or_nothing_witness :
  fst (loadData parseDecimal (Some csv_broken) empty_table) = empty_table /\
  (count empty_table <= 0 ->
   exists e, snd (loadData parseDecimal (Some csv_broken) empty_table) = Failed e).
Proof.
  apply (proj1 (loadData_all_or_nothing parseDecimal csv_broken empty_table)).
  apply Exists_cons_tl, Exists_cons_hd.
  exists (ArrayIndexOutOfBoundsException 7). vm_compute. reflexivity.
Defined.

Lemma loadData_idempotent_witness :
  fst (loadData parseDecimal (Some csv_good)
         (fst (loadData parseDecimal (Some csv_good) empty_table)))
  = fst (loadData parseDecimal (Some csv_good) empty_table).
Proof.
  apply (proj2 (@loadData_idempotent parseDecimal Table table_repository
                  (fun r => eq_refl) table_saveAll_count
                  (Some csv_good) empty_table)).
Defined.

End LoaderFacts.

(** * The non-negativity invariant on the two ingestion paths *)
Module InvariantFacts.
Import JavaString.





End InvariantFacts.

(** * Properties of the engine model *)
Module EngineFacts.
Import Engine.
Local Open Scope Q_scope.

(** Under the standard model a rounded non-negative value stays within the
    relative error of the exact one. *)
Lemma rnd_bounds (rnd : Q -> Q) (x : Q) :
  standard_model rnd -> 0 <= x ->
  (1 - unit_roundoff) * x <= rnd x /\ rnd x <= (1 + unit_roundoff) * x.
Proof.
  intros Hstd Hx. specialize (Hstd x).
  rewrite (Qabs_pos x Hx) in Hstd.
  apply Qabs_Qle_condition in Hstd. destruct Hstd as [Hlo Hhi].
  split; lra.
Qed.

Lemma score_weighted (xgb rf gb : Classifier) (n : Normalization)
    (refs : list Reference) (v : FeatureVector) (wa wb wc : Q) :
  score v (with_weights (voting_ensemble xgb rf gb n refs) [wa; wb; wc])
  == (wa * proba xgb v + wb * proba rf v + wc * proba gb v) / (wa + wb + wc).
Proof.
  unfold score, weighted_sum, base_probabilities, Qsum. simpl.
  assert (wa + (wb + (wc + 0)) == wa + wb + wc) as -> by ring.
  apply Qmult_comp; [ring|reflexivity].
Qed.

Lemma rounded_score_close (rnd : Q -> Q) (xgb rf gb : Classifier)
    (n : Normalization) (refs : list Reference) (v : FeatureVector) :
  standard_model rnd ->
  0 <= proba xgb v <= 1 -> 0 <= proba rf v <= 1 -> 0 <= proba gb v <= 1 ->
  Qabs (rounded_score rnd v (voting_ensemble xgb rf gb n refs)
        - (2 * proba xgb v + 1 * proba rf v + 1 * proba gb v) / 4)
  <= 1 # 1000000000.
Proof.
  intros Hstd Ha Hb Hc.
  unfold rounded_score, base_probabilities, Qsum, voting_ensemble.
  cbn [weights classifiers map zip zip_with fold_left fold_right fst snd].
  generalize dependent (proba xgb v). intros pa Ha.
  generalize dependent (proba rf v). intros pb Hb.
  generalize dependent (proba gb v). intros pc Hc.
  pose proof (rnd_bounds rnd (2 * pa) Hstd ltac:(lra)) as H1.
  set (m1 := rnd (2 * pa)) in *. clearbody m1.
  pose proof (rnd_bounds rnd (0 + m1) Hstd ltac:(unfold unit_roundoff in *; lra)) as H2.
  set (a1 := rnd (0 + m1)) in *. clearbody a1.
  pose proof (rnd_bounds rnd (1 * pb) Hstd ltac:(lra)) as H3.
  set (m2 := rnd (1 * pb)) in *. clearbody m2.
  pose proof (rnd_bounds rnd (a1 + m2) Hstd ltac:(unfold unit_roundoff in *; lra)) as H4.
  set (a2 := rnd (a1 + m2)) in *. clearbody a2.
  pose proof (rnd_bounds rnd (1 * pc) Hstd ltac:(lra)) as H5.
  set (m3 := rnd (1 * pc)) in *. clearbody m3.
  pose proof (rnd_bounds rnd (a2 + m3) Hstd ltac:(unfold unit_roundoff in *; lra)) as H6.
  set (a3 := rnd (a2 + m3)) in *. clearbody a3.
  assert (a3 / (2 + (1 + (1 + 0))) == a3 * (1 # 4)) as Hq
    by (unfold Qdiv; apply Qmult_comp; reflexivity).
  set (x := a3 / (2 + (1 + (1 + 0)))) in *. clearbody x.
  pose proof (rnd_bounds rnd x Hstd ltac:(unfold unit_roundoff in *; lra)) as H7.
  set (d := rnd x) in *. clearbody d.
  assert ((2 * pa + 1 * pb + 1 * pc) / 4 == (2 * pa + 1 * pb + 1 * pc) * (1 # 4))
    as Hy by (unfold Qdiv; apply Qmult_comp; reflexivity).
  set (y := (2 * pa + 1 * pb + 1 * pc) / 4) in *. clearbody y.
  apply (proj2 (Qabs_Qle_condition _ _)). unfold unit_roundoff in *.
  split; lra.
Qed.

(** C1: for the ensemble of three classifiers with the weights 2, 1, 1 of
    its bundle, the score is the weighted average (2*p_a + p_b + p_c) / 4
    of the base probabilities: exactly so in exact arithmetic, and within
    1e-9 when every operation is rounded as binary64 rounds; the weights
    are data of the bundle, so a bundle with other weights is scored with
    those. *)
Theorem ensemble_score_weighted_average (rnd : Q -> Q)
    (xgb rf gb : Classifier) (n : Normalization) (refs : list Reference)
    (v : FeatureVector) :
  standard_model rnd ->
  0 <= proba xgb v <= 1 -> 0 <= proba rf v <= 1 -> 0 <= proba gb v <= 1 ->
  weights (voting_ensemble xgb rf gb n refs) = [2; 1; 1] /\
  score v (voting_ensemble xgb rf gb n refs)
    == (2 * proba xgb v + 1 * proba rf v + 1 * proba gb v) / 4 /\
  Qabs (rounded_score rnd v (voting_ensemble xgb rf gb n refs)
        - (2 * proba xgb v + 1 * proba rf v + 1 * proba gb v) / 4)
    <= 1 # 1000000000 /\
  (forall wa wb wc,
     score v (with_weights (voting_ensemble xgb rf gb n refs) [wa; wb; wc])
     == (wa * proba xgb v + wb * proba rf v + wc * proba gb v) / (wa + wb + wc)).
Proof.
  intros Hstd Ha Hb Hc. split; [reflexivity|]. split; [|split].
  - rewrite (score_weighted xgb rf gb n refs v 2 1 1).
    apply Qmult_comp; reflexivity.
  - now apply rounded_score_close.
  - intros wa wb wc. apply score_weighted.
Qed.

Lemma ensemble_score_weighted_average_witness :
  score [] sample_bundle == (2 * (9 # 10) + 1 * (7 # 10) + 1 * (1 # 2)) / 4.
Proof.
  apply (ensemble_score_weighted_average (fun x => x)
           (sample_classifier (9 # 10)) (sample_classifier (7 # 10))
           (sample_classifier (1 # 2)) sample_normalization sample_reference []).
  - intros x. unfold unit_roundoff.
    apply (proj2 (Qabs_Qle_condition _ _)).
    pose proof (Qabs_nonneg x). split; lra.
  - split; discriminate.
  - split; discriminate.
  - split; discriminate.
Defined.

(** The vocabulary of the three encoded fields is the domain of their
    encoder. *)
Lemma contract_in_vocabulary (r : CustomerRecord) :
  in_vocabulary FContract r
  = match contract_stability (contract r) with Some _ => true | None => false end.
Proof.
  unfold in_vocabulary, contract_stability. cbn [vocabulary field_value existsb].
  repeat destruct (String.eqb (contract r) _); reflexivity.
Qed.

Lemma payment_in_vocabulary (r : CustomerRecord) :
  in_vocabulary FPaymentMethod r
  = match payment_risk (payment_method r) with Some _ => true | None => false end.
Proof.
  unfold in_vocabulary, payment_risk. cbn [vocabulary field_value existsb].
  repeat destruct (String.eqb (payment_method r) _); reflexivity.
Qed.

Lemma internet_in_vocabulary (r : CustomerRecord) :
  in_vocabulary FInternetService r
  = match fiber (internet_service r) with Some _ => true | None => false end.
Proof.
  unfold in_vocabulary, fiber. cbn [vocabulary field_value existsb].
  repeat destruct (String.eqb (internet_service r) _); reflexivity.
Qed.

Lemma all_fields_complete (f : Field) : In f all_fields.
Proof. destruct f; simpl; tauto. Qed.

(** The check finds a field exactly when some field is off its
    vocabulary, and the field it finds is off its vocabulary. *)
Lemma first_invalid_some (r : CustomerRecord) (f : Field) :
  in_vocabulary f r = false ->
  exists f', first_invalid r = Some f' /\ in_vocabulary f' r = false.
Proof.
  intros Hf. unfold first_invalid.
  destruct (List.find (fun f => negb (in_vocabulary f r)) all_fields) as [f'|] eqn:E.
  - exists f'. split; [reflexivity|].
    apply List.find_some in E as [_ E]. now apply negb_true_iff in E.
  - pose proof (List.find_none _ _ E f (all_fields_complete f)) as Hn.
    simpl in Hn. rewrite Hf in Hn. discriminate.
Qed.

Lemma first_invalid_none (r : CustomerRecord) :
  valid r -> first_invalid r = None.
Proof.
  intros Hall. unfold first_invalid.
  destruct (List.find (fun f => negb (in_vocabulary f r)) all_fields) as [f'|] eqn:E;
    [|reflexivity].
  apply List.find_some in E as [_ E]. rewrite (Hall f') in E. discriminate.
Qed.

Lemma features_valid (n : Normalization) (r : CustomerRecord) :
  valid r -> exists v, features n r = Ok v /\ map fst v = feature_order.
Proof.
  intros Hall. unfold features.
  pose proof (contract_in_vocabulary r) as Hc.
  pose proof (payment_in_vocabulary r) as Hp.
  pose proof (internet_in_vocabulary r) as Hi.
  rewrite (Hall FContract) in Hc. rewrite (Hall FPaymentMethod) in Hp.
  rewrite (Hall FInternetService) in Hi.
  destruct (contract_stability (contract r)); [|discriminate].
  destruct (payment_risk (payment_method r)); [|discriminate].
  destruct (fiber (internet_service r)); [|discriminate].
  eexists. split; reflexivity.
Qed.

Lemma derive_valid (n : Normalization) (r : CustomerRecord) :
  valid r -> exists v, derive n r = Ok v /\ map fst v = feature_order.
Proof.
  intros Hall. unfold derive. rewrite (first_invalid_none r Hall).
  now apply features_valid.
Qed.

Lemma predict_derive_error (pol : Policy) (b : ModelBundle) (r : CustomerRecord)
    (e : error) :
  derive (normalization b) r = Err e -> predict pol b r = Err e.
Proof. intros He. unfold predict. now rewrite He. Qed.

(** A value the data set does not know in a boolean-like add-on field is
    rejected like one in the contract field. *)
Lemma derive_rejects_unseen_add_on :
  derive sample_normalization (with_tech_support sample_record "Maybe")
  = Err (FeatureError "tech_support" "Maybe").
Proof. reflexivity. Qed.

(** C6: when a categorical field of the record holds a value outside its
    vocabulary, derive raises FeatureError for the first such field, with
    its name and its value, and so does predict, which returns no result;
    when every categorical field is in its vocabulary, derive returns a
    feature vector, in the fixed order. *)
Theorem derive_feature_error (pol : Policy) (b : ModelBundle) (r : CustomerRecord) :
  ((exists f, in_vocabulary f r = false) ->
     exists f, in_vocabulary f r = false /\
       first_invalid r = Some f /\
       derive (normalization b) r
         = Err (FeatureError (field_name f) (field_value f r)) /\
       predict pol b r = Err (FeatureError (field_name f) (field_value f r))) /\
  ((forall f, in_vocabulary f r = true) ->
     exists v, derive (normalization b) r = Ok v /\ map fst v = feature_order).
Proof.
  split.
  - intros [f Hf]. destruct (first_invalid_some r f Hf) as (f' & Hfind & Hf').
    assert (derive (normalization b) r
            = Err (FeatureError (field_name f') (field_value f' r))) as Hd
      by (unfold derive; now rewrite Hfind).
    exists f'. repeat split; try assumption.
    now apply predict_derive_error.
  - intros Hall. now apply derive_valid.
Qed.

Lemma derive_feature_error_witness :
  exists f, in_vocabulary f (with_contract sample_record "Weekly") = false /\
    first_invalid (with_contract sample_record "Weekly") = Some f /\
    derive (normalization sample_bundle) (with_contract sample_record "Weekly")
      = Err (FeatureError (field_name f)
               (field_value f (with_contract sample_record "Weekly"))) /\
    predict default_policy sample_bundle (with_contract sample_record "Weekly")
      = Err (FeatureError (field_name f)
               (field_value f (with_contract sample_record "Weekly"))).
Proof.
  apply (proj1 (derive_feature_error default_policy sample_bundle
                  (with_contract sample_record "Weekly"))).
  exists FContract. reflexivity.
Defined.

(** A weighted sum of probabilities with non-negative weights lies between
    zero and the sum of the weights. *)
Lemma weighted_sum_bounds (ws : list Q) :
  forall ps,
    Forall (fun w => 0 <= w) ws -> Forall (fun p => 0 <= p <= 1) ps ->
    0 <= weighted_sum ws ps <= Qsum ws.
Proof.
  unfold weighted_sum.
  induction ws as [|w ws IH]; intros ps Hw Hp.
  - simpl. split; apply Qle_refl.
  - apply Forall_cons in Hw as [Hw0 Hw].
    destruct ps as [|p ps].
    + simpl. specialize (IH [] Hw ltac:(constructor)). simpl in IH. lra.
    + apply Forall_cons in Hp as [Hp0 Hp].
      specialize (IH ps Hw Hp). cbn [zip_with Qsum fold_right] in *.
      fold (Qsum ws) in *. fold (Qsum (zip_with Qmult ws ps)) in *.
      assert (0 <= w * p) by (apply Qmult_le_0_compat; lra).
      assert (w * p <= w) by nra.
      lra.
Qed.

Lemma score_bounds (v : FeatureVector) (b : ModelBundle) :
  well_formed b -> 0 <= score v b <= 1.
Proof.
  intros (_ & Hw & Hpos & Hc). unfold score.
  assert (Forall (fun p => 0 <= p <= 1) (base_probabilities v b)) as Hp.
  { unfold base_probabilities. apply Forall_forall. intros p Hin.
    apply list_elem_of_In, in_map_iff in Hin as (c & <- & Hin).
    rewrite Forall_forall in Hc. apply Hc, list_elem_of_In, Hin. }
  pose proof (weighted_sum_bounds (weights b) _ Hw Hp) as [Hlo Hhi].
  split.
  - apply Qle_shift_div_l; [exact Hpos|]. lra.
  - apply Qle_shift_div_r; [exact Hpos|]. lra.
Qed.

Lemma dedup_sublist (l : list StrategyAction) :
  forall seen, sublist (dedup seen l) l.
Proof.
  induction l as [|a l IH]; intros seen; simpl; [constructor|].
  destruct (existsb (String.eqb (action a)) seen).
  - apply sublist_cons, IH.
  - apply sublist_skip, IH.
Qed.

(** The suggestions are emissions of the rules of the table, in table
    order, and no more than the cap. *)
Lemma generate_sublist (pol : Policy) (level : RiskLevel)
    (factors : list RiskFactor) (r : CustomerRecord) :
  sublist (generate pol level factors r) (map emits (rules pol)) /\
  (length (generate pol level factors r) <= max_actions pol)%nat.
Proof.
  unfold generate. split.
  - etransitivity; [apply sublist_take|].
    etransitivity; [apply dedup_sublist|].
    apply (fmap_sublist emits), sublist_filter.
  - rewrite length_take. lia.
Qed.

(** C2: for a valid record, one whose categorical fields all hold a value
    of their vocabulary, and a bundle whose classifiers return
    probabilities, predict returns a PredictionResult; its field
    churn_probability lies in [0,1]; its field suggestions is a sequence
    of StrategyAction records, each with its action, priority, details and
    expected_impact as a rule of the table emits them, in table order,
    and no longer than the cap. *)
Theorem predict_result_fields (pol : Policy) (b : ModelBundle) (r : CustomerRecord) :
  well_formed b -> valid r ->
  exists res,
    predict pol b r = Ok res /\
    0 <= churn_probability res <= 1 /\
    sublist (suggestions res) (map emits (rules pol)) /\
    (length (suggestions res) <= max_actions pol)%nat.
Proof.
  intros Hb Hr.
  destruct (derive_valid (normalization b) r Hr) as (v & Hv & _).
  unfold predict. rewrite Hv. eexists. split; [reflexivity|].
  cbn [assemble churn_probability suggestions].
  split; [now apply score_bounds|]. apply generate_sublist.
Qed.

Lemma sample_bundle_well_formed : well_formed sample_bundle.
Proof.
  unfold well_formed, sample_bundle, voting_ensemble. simpl.
  split; [reflexivity|]. split; [repeat constructor; discriminate|].
  split; [reflexivity|].
  repeat constructor; discriminate.
Qed.

Lemma sample_record_valid : valid sample_record.
Proof. intros f. destruct f; reflexivity. Qed.

Lemma predict_result_fields_witness :
  exists res,
    predict default_policy sample_bundle sample_record = Ok res /\
    0 <= churn_probability res <= 1 /\
    sublist (suggestions res) (map emits (rules default_policy)) /\
    (length (suggestions res) <= max_actions default_policy)%nat.
Proof.
  apply (predict_result_fields default_policy sample_bundle sample_record).
  - exact sample_bundle_well_formed.
  - exact sample_record_valid.
Defined.

Lemma undersized_churned (min_sample : nat) (pop : Population) :
  (length (churned_group pop) < min_sample)%nat ->
  undersized min_sample pop = Some (length (churned_group pop)).
Proof.
  intros Hlt. unfold undersized.
  destruct (Nat.ltb_spec (length (churned_group pop)) min_sample); [reflexivity|lia].
Qed.

Lemma undersized_some (min_sample : nat) (pop : Population) :
  (length (churned_group pop) < min_sample)%nat \/
  (length (retained_group pop) < min_sample)%nat ->
  exists n, undersized min_sample pop = Some n /\ (n < min_sample)%nat.
Proof.
  intros Hlt. unfold undersized.
  destruct (Nat.ltb_spec (length (churned_group pop)) min_sample); [eauto|].
  destruct (Nat.ltb_spec (length (retained_group pop)) min_sample); [eauto|].
  lia.
Qed.

(** C7: a segment with fewer members than the minimum sample size raises
    InsufficientDataError instead of a churn rate, and so does each test
    when one of its two groups is that small; with the minimum at five, a
    segment of three customers raises it. *)
Theorem insufficient_data_raises (chi_square_p : Q -> nat -> Q)
    (mann_whitney_p : Q -> nat -> nat -> Q) (min_sample : nat)
    (pop : Population) :
  (forall rule,
     (length (filter (fun m => seg_member rule (record m)) pop) < min_sample)%nat ->
     segment_stat min_sample rule pop
     = Err (InsufficientDataError (seg_label rule)
              (length (filter (fun m => seg_member rule (record m)) pop)))) /\
  ((length (churned_group pop) < min_sample)%nat \/
   (length (retained_group pop) < min_sample)%nat ->
   exists n, (n < min_sample)%nat /\
     (forall name value,
        mann_whitney_test mann_whitney_p min_sample name value pop
        = Err (InsufficientDataError name n)) /\
     (forall name categories value,
        chi_square_test chi_square_p min_sample name categories value pop
        = Err (InsufficientDataError name n))) /\
  (forall rule,
     length (filter (fun m => seg_member rule (record m)) pop) = 3%nat ->
     segment_stat 5 rule pop = Err (InsufficientDataError (seg_label rule) 3)).
Proof.
  split; [|split].
  - intros rule Hlt. unfold segment_stat. cbv zeta.
    destruct (Nat.ltb_spec
                (length (filter (fun m => seg_member rule (record m)) pop))
                min_sample); [reflexivity|lia].
  - intros Hlt. destruct (undersized_some min_sample pop Hlt) as (n & Hu & Hn).
    exists n. split; [exact Hn|]. split.
    + intros name value. unfold mann_whitney_test. now rewrite Hu.
    + intros name categories value. unfold chi_square_test. now rewrite Hu.
  - intros rule H3. unfold segment_stat. cbv zeta. now rewrite H3.
Qed.

Lemma insufficient_data_raises_witness :
  segment_stat 5 {| seg_label := "Tenure < 6 months";
                    seg_member := fun r => (tenure r <? 6)%Z |} sample_population
  = Err (InsufficientDataError "Tenure < 6 months" 3).
Proof.
  apply (proj2 (proj2 (insufficient_data_raises (fun _ _ => 1) (fun _ _ _ => 1)
                         5 sample_population))).
  reflexivity.
Defined.
















End EngineFacts.

(** * Further properties of the CSV loader *)
Module LoaderExtras.
Import JavaString DataLoader Csv.

Lemma split_not_nil (s : string) : split s <> [].
Proof.
  induction s as [|c s IH]; simpl; [discriminate|].
  destruct (Ascii.eqb c "," && even_quotes s); [discriminate|].
  destruct (split s); [now elim IH|discriminate].
Qed.

(** Joining the fields of a line with commas gives the line back: the
    split loses no character, quoted or not. *)
Theorem split_join (line : string) : join (split line) = line.
Proof.
  induction line as [|c s IH]; simpl; [reflexivity|].
  pose proof (split_not_nil s) as Hne.
  destruct (Ascii.eqb c "," && even_quotes s) eqn:Hsep.
  - apply andb_true_iff in Hsep as [Hc _]. apply Ascii.eqb_eq in Hc. subst c.
    destruct (split s) as [|f fs]; [now elim Hne|].
    change (join (EmptyString :: f :: fs)) with (String "," (join (f :: fs))).
    now rewrite IH.
  - destruct (split s) as [|f fs]; [now elim Hne|].
    destruct fs as [|g fs].
    + simpl in *. now rewrite IH.
    + change (join (String c f :: g :: fs))
        with (String c (join (f :: g :: fs))).
      now rewrite IH.
Qed.

Lemma quote_free_even (s : string) :
  count_char quote s = 0%nat -> even_quotes s = true.
Proof.
  induction s as [|c s IH]; simpl; [reflexivity|].
  change (ascii_of_nat 34) with quote.
  destruct (Ascii.eqb c quote); [discriminate|]. exact IH.
Qed.

(** A line has at least one field and at most one more than it has
    commas; a line without quotes is cut at every comma: it has one field
    more than commas and no field holds a comma. *)
Theorem split_fields (line : string) :
  (1 <= length (split line) <= S (count_char comma line))%nat /\
  (count_char quote line = 0%nat ->
   length (split line) = S (count_char comma line) /\
   Forall (fun f => count_char comma f = 0%nat) (split line)).
Proof.
  induction line as [|c s [[IHlo IHhi] IHq]]; simpl.
  - split; [lia|]. intros _. split; [reflexivity|]. repeat constructor.
  - change (ascii_of_nat 34) with quote. fold comma.
    change (Ascii.eqb c ",") with (Ascii.eqb c comma).
    pose proof (split_not_nil s) as Hne. split.
    + destruct (Ascii.eqb c comma); [destruct (even_quotes s)|]; simpl.
      * lia.
      * destruct (split s) as [|f fs]; [now elim Hne|]. simpl in *. lia.
      * destruct (split s) as [|f fs]; [now elim Hne|]. simpl in *. lia.
    + intros Hq.
      destruct (Ascii.eqb c quote) eqn:Hcq; [discriminate|]. simpl in Hq.
      destruct (IHq Hq) as [Hlen Hall]. rewrite (quote_free_even s Hq), andb_true_r.
      destruct (Ascii.eqb c comma) eqn:Hcc.
      * simpl. split; [now rewrite Hlen|]. constructor; [reflexivity|exact Hall].
      * destruct (split s) as [|f fs]; [now elim Hne|]. simpl in *.
        split; [exact Hlen|]. inversion Hall; subst.
        constructor; [|assumption]. simpl. now rewrite Hcc.
Qed.

Ltac invert_binds H :=
  repeat match type of H with
         | _ ≫= _ = Ok _ =>
             let a := fresh "a" in let Ha := fresh "Ha" in
             apply LoaderFacts.bind_Ok in H; destruct H as (a & Ha & H)
         end.

Lemma at_index_take (l1 l2 : list string) (n i : nat) :
  take n l1 = take n l2 -> (i < n)%nat -> at_index l1 i = at_index l2 i.
Proof.
  intros Ht Hi. unfold at_index.
  rewrite <- (lookup_take_lt l1 n i Hi), <- (lookup_take_lt l2 n i Hi).
  now rewrite Ht.
Qed.

Lemma parse_digits_nonneg (s : string) :
  forall acc v, 0 <= acc -> parse_digits acc s = Some v -> 0 <= v.
Proof.
  induction s as [|c s IH]; simpl; intros acc v Hacc Hp.
  - injection Hp as <-. exact Hacc.
  - unfold digit_of in Hp.
    destruct ((48 <=? Z.of_nat (nat_of_ascii c)) && (Z.of_nat (nat_of_ascii c) <=? 57))
      eqn:Hd; [|discriminate].
    apply andb_true_iff in Hd as [Hlo Hhi].
    eapply IH; [|exact Hp]. lia.
Qed.

(** [Integer.parseInt] returns 32-bit values only. *)
Lemma parseInt_range (s : string) (z : Z) :
  parseInt s = Some z -> Integer_MIN_VALUE <= z <= Integer_MAX_VALUE.
Proof.
  unfold parseInt, Integer_MIN_VALUE, Integer_MAX_VALUE.
  destruct s as [|c s]; [discriminate|].
  destruct (Ascii.eqb c "-").
  { destruct s as [|d s]; [discriminate|].
    destruct (parse_digits 0 (String d s)) as [v|] eqn:Hp; [|discriminate].
    apply parse_digits_nonneg in Hp; [|lia].
    destruct (Z.leb_spec (- 2 ^ 31) (- v)); [|discriminate].
    intros [= <-]. lia. }
  destruct (Ascii.eqb c "+").
  { destruct s as [|d s]; [discriminate|].
    destruct (parse_digits 0 (String d s)) as [v|] eqn:Hp; [|discriminate].
    apply parse_digits_nonneg in Hp; [|lia].
    destruct (Z.leb_spec v (2 ^ 31 - 1)); [|discriminate].
    intros [= <-]. lia. }
  destruct (parse_digits 0 (String c s)) as [v|] eqn:Hp; [|discriminate].
  apply parse_digits_nonneg in Hp; [|lia].
  destruct (Z.leb_spec v (2 ^ 31 - 1)); [|discriminate].
  intros [= <-]. lia.
Qed.

Lemma parse_digits_no_space (s : string) :
  forall acc v, parse_digits acc s = Some v -> blank_free s = true.
Proof.
  induction s as [|c s IH]; simpl; intros acc v Hp; [reflexivity|].
  unfold digit_of in Hp.
  destruct ((48 <=? Z.of_nat (nat_of_ascii c)) && (Z.of_nat (nat_of_ascii c) <=? 57))
    eqn:Hd; [|discriminate].
  apply andb_true_iff in Hd as [Hlo%Z.leb_le Hhi].
  rewrite (IH _ _ Hp), andb_true_r. unfold le_space.
  apply negb_true_iff, Nat.leb_gt. lia.
Qed.

(** [Integer.parseInt] accepts no white space: a string it parses has no
    character [<= ' '] and is not empty. *)
Lemma parseInt_no_space (s : string) (z : Z) :
  parseInt s = Some z -> blank_free s = true /\ s <> EmptyString.
Proof.
  unfold parseInt. destruct s as [|c s]; [discriminate|].
  intros Hp. split; [|discriminate].
  destruct (Ascii.eqb c "-") eqn:Em.
  { apply Ascii.eqb_eq in Em. subst c. destruct s as [|d s]; [discriminate|].
    destruct (parse_digits 0 (String d s)) eqn:Hd; [|discriminate].
    change (blank_free (String "-" (String d s)))
      with (blank_free (String d s)).
    eapply parse_digits_no_space, Hd. }
  destruct (Ascii.eqb c "+") eqn:Ep.
  { apply Ascii.eqb_eq in Ep. subst c. destruct s as [|d s]; [discriminate|].
    destruct (parse_digits 0 (String d s)) eqn:Hd; [|discriminate].
    change (blank_free (String "+" (String d s)))
      with (blank_free (String d s)).
    eapply parse_digits_no_space, Hd. }
  destruct (parse_digits 0 (String c s)) eqn:Hd; [|discriminate].
  eapply parse_digits_no_space, Hd.
Qed.

Lemma trim_right_blank_free (s : string) :
  blank_free s = true -> trim_right s = s.
Proof.
  induction s as [|c s IH]; simpl; [reflexivity|].
  intros [Hc Hs]%andb_true_iff. rewrite (IH Hs).
  apply negb_true_iff in Hc. rewrite Hc. now destruct s.
Qed.

Lemma trim_blank_free (s : string) : blank_free s = true -> trim s = s.
Proof.
  intros Hs. unfold trim.
  assert (trim_left s = s) as ->.
  { destruct s as [|c s]; [reflexivity|]. simpl in *.
    apply andb_true_iff in Hs as [Hc _]. apply negb_true_iff in Hc. now rewrite Hc. }
  now apply trim_right_blank_free.
Qed.

Section WithParseDouble.

Variable parseDouble : string -> option float.

(** The total-charges column is read through its trimmed text alone, and
    the comparison of that text with a single space never holds: the
    column gives 0.0 exactly when nothing is left after trimming. *)
Theorem readTotalCharges_by_trim (field : string) :
  String.eqb (trim field) " " = false /\
  readTotalCharges parseDouble field
  = (if isEmpty (trim field) then Ok 0%float
     else Double_parseDouble parseDouble (trim field)) /\
  (forall field', trim field = trim field' ->
     readTotalCharges parseDouble field = readTotalCharges parseDouble field').
Proof.
  assert (String.eqb (trim field) " " = false) as Hsp.
  { destruct (blank field) eqn:Hb.
    - now rewrite (LoaderFacts.trim_blank _ Hb).
    - destruct (LoaderFacts.trim_not_blank _ Hb) as (c & t & -> & Hc).
      apply String.eqb_neq. intros [= -> ->]. discriminate. }
  split; [exact Hsp|]. split.
  - unfold readTotalCharges. cbv zeta. now rewrite Hsp, orb_false_r.
  - intros field' Ht. unfold readTotalCharges. cbv zeta. now rewrite Ht.
Qed.

(** The integer columns take no padding: in a line that is parsed, the
    senior-citizen and the tenure columns hold no character [<= ' '], so
    trimming leaves them as they are, whereas the total-charges column
    may be padded. *)
Theorem integer_columns_unpadded (line : string) (c : Customer) :
  parseLine parseDouble line = Ok c ->
  exists senior months,
    split line !! 2%nat = Some senior /\ split line !! 5%nat = Some months /\
    trim senior = senior /\ trim months = months /\
    senior <> EmptyString /\ months <> EmptyString.
Proof.
  intros Hp. unfold parseLine in Hp. cbv zeta in Hp. invert_binds Hp.
  repeat match goal with
         | Hm : at_index _ _ ≫= Integer_parseInt = Ok _ |- _ =>
             let f := fresh "f" in let Hf := fresh "Hf" in
             apply LoaderFacts.bind_Ok in Hm; destruct Hm as (f & Hf & Hm);
             unfold Integer_parseInt in Hm;
             unfold at_index in Hf
         end.
  repeat match goal with
         | Hf : match ?l !! ?i with _ => _ end = Ok _ |- _ =>
             destruct (l !! i) eqn:?; [injection Hf as ->|discriminate]
         end.
  repeat match goal with
         | Hm : match parseInt ?s with _ => _ end = Ok _ |- _ =>
             let E := fresh "E" in
             destruct (parseInt s) eqn:E; [|discriminate];
             clear Hm; apply parseInt_no_space in E; destruct E
         end.
  do 2 eexists. repeat split; try eassumption; now apply trim_blank_free.
Qed.

(** A data line is read through its first 21 columns only: it needs that
    many to be parsed, and two lines that agree on them give the same
    outcome, whatever follows. *)
Theorem parseLine_columns (line : string) :
  (forall c, parseLine parseDouble line = Ok c -> (21 <= length (split line))%nat) /\
  (forall line', take 21 (split line) = take 21 (split line') ->
                 parseLine parseDouble line = parseLine parseDouble line').
Proof.
  split.
  - intros c Hp. unfold parseLine in Hp. cbv zeta in Hp. invert_binds Hp.
    match goal with
    | Hm : at_index _ 20 = Ok _ |- _ =>
        unfold at_index in Hm;
        destruct (split line !! 20%nat) eqn:Hl; [|discriminate]
    end.
    apply lookup_lt_Some in Hl. lia.
  - intros line' Ht. unfold parseLine. cbv zeta.
    rewrite !(at_index_take _ _ 21 _ Ht) by lia. reflexivity.
Qed.

(** The two integer columns of a parsed record are 32-bit values and the
    record has no primary key yet. *)
Theorem parseLine_int_range (line : string) (c : Customer) :
  parseLine parseDouble line = Ok c ->
  Integer_MIN_VALUE <= seniorCitizen c <= Integer_MAX_VALUE /\
  Integer_MIN_VALUE <= tenure c <= Integer_MAX_VALUE /\
  id_ c = None.
Proof.
  intros Hp. unfold parseLine in Hp. cbv zeta in Hp. invert_binds Hp.
  injection Hp as <-. simpl.
  repeat match goal with
         | Hm : _ ≫= Integer_parseInt = Ok _ |- _ =>
             apply LoaderFacts.bind_Ok in Hm; destruct Hm as (? & _ & Hm);
             unfold Integer_parseInt in Hm
         end.
  repeat match goal with
         | Hm : match parseInt ?s with _ => _ end = Ok _ |- _ =>
             let E := fresh "E" in
             destruct (parseInt s) eqn:E; [|discriminate];
             injection Hm as <-; apply parseInt_range in E
         end.
  auto.
Qed.

Lemma parseLine_identity (line : string) (c : Customer) :
  parseLine parseDouble line = Ok c ->
  split line !! 0%nat = Some (customerId c) /\
  split line !! 20%nat = Some (churn c).
Proof.
  intros Hp. unfold parseLine in Hp. cbv zeta in Hp. invert_binds Hp.
  injection Hp as <-. simpl.
  repeat match goal with
         | Hm : at_index _ _ = Ok _ |- _ =>
             unfold at_index in Hm;
             match type of Hm with
             | match ?l !! ?i with _ => _ end = _ =>
                 destruct (l !! i) eqn:?; [injection Hm as <-|discriminate]
             end
         end.
  auto.
Qed.

Context {R : Type} `{CustomerRepository R}.

(** A load that reports [Loaded n] has saved one record per line after
    the header, in the order of the file: [n] is the number of those
    lines, and the k-th record carries the customer id and the churn
    column of the k-th data line. *)
Theorem loadData_one_record_per_line
    (resource : option (list string)) (repo repo' : R) (n : nat) :
  loadData parseDouble resource repo = (repo', Loaded n) ->
  exists lines customers,
    resource = Some lines /\ repo' = saveAll repo customers /\
    n = (length lines - 1)%nat /\ length customers = n /\
    Forall2 (fun l c => split l !! 0%nat = Some (customerId c) /\
                        split l !! 20%nat = Some (churn c))
            (tail lines) customers.
Proof.
  intros Hl.
  destruct (LoaderFacts.loadData_cases parseDouble resource repo)
    as [[_ Hs]|[[_ [e Hf]]|[_ (lines & customers & -> & HF & Hd)]]];
    try congruence.
  rewrite Hd in Hl. injection Hl as <- <-.
  exists lines, customers.
  pose proof (Forall2_length _ _ _ HF) as Hlen.
  assert (length (tail lines) = (length lines - 1)%nat) as Ht
    by (destruct lines; simpl; lia).
  repeat split; try lia.
  eapply Forall2_impl; [exact HF|]. intros l c. apply parseLine_identity.
Qed.

End WithParseDouble.

Lemma split_fields_witness :
  length (split csv_line_1) = S (count_char comma csv_line_1) /\
  Forall (fun f => count_char comma f = 0%nat) (split csv_line_1).
Proof.
  apply (proj2 (split_fields csv_line_1)). reflexivity.
Defined.

Lemma parseLine_columns_witness :
  (21 <= length (split csv_line_1))%nat.
Proof.
  eapply (proj1 (parseLine_columns parseDecimal csv_line_1)).
  vm_compute. reflexivity.
Defined.

Lemma parseLine_int_range_witness :
  exists c, parseLine parseDecimal csv_line_negative_tenure = Ok c /\
    Integer_MIN_VALUE <= seniorCitizen c <= Integer_MAX_VALUE /\
    Integer_MIN_VALUE <= tenure c <= Integer_MAX_VALUE /\
    id_ c = None.
Proof.
  eexists. split; [vm_compute; reflexivity|].
  apply (parseLine_int_range parseDecimal csv_line_negative_tenure).
  vm_compute. reflexivity.
Defined.

Lemma integer_columns_unpadded_witness :
  exists senior months,
    split csv_line_1 !! 2%nat = Some senior /\
    split csv_line_1 !! 5%nat = Some months /\
    trim senior = senior /\ trim months = months /\
    senior <> EmptyString /\ months <> EmptyString.
Proof.
  eapply (integer_columns_unpadded parseDecimal csv_line_1).
  vm_compute. reflexivity.
Defined.

Lemma loadData_one_record_per_line_witness :
  exists lines customers,
    Some csv_good = Some lines /\
    fst (loadData parseDecimal (Some csv_good) empty_table)
      = saveAll empty_table customers /\
    2%nat = (length lines - 1)%nat /\ length customers = 2%nat /\
    Forall2 (fun l c => split l !! 0%nat = Some (customerId c) /\
                        split l !! 20%nat = Some (churn c))
            (tail lines) customers.
Proof.
  apply (loadData_one_record_per_line parseDecimal (Some csv_good) empty_table
           (fst (loadData parseDecimal (Some csv_good) empty_table)) 2).
  vm_compute. reflexivity.
Defined.

End LoaderExtras.

(** * Further properties of the authentication provider and its users *)
Module AuthExtras.
Import Auth AuthSession.

Lemma reachable_synced (v : version) (stored : option string) (s : State) :
  reachable v stored s -> synced s.
Proof.
  induction 1 as [|s s' _ IH Hstep]; [apply AuthFacts.mount_synced|].
  eapply AuthFacts.step_synced; eassumption.
Qed.

Lemma commit_token (s : State) : token (commit s) = token s.
Proof.
  unfold commit, effect.
  destruct (effect_dep s) as [t|]; [destruct (same_value t (token s))|];
    try reflexivity; destruct (truthy (token s)); reflexivity.
Qed.

Lemma commit_storage (s : State) : storage (commit s) = storage s.
Proof.
  unfold commit, effect.
  destruct (effect_dep s) as [t|]; [destruct (same_value t (token s))|];
    try reflexivity; destruct (truthy (token s)); reflexivity.
Qed.

(** A state in sync is determined by its token and its storage. *)
Lemma synced_settled (s : State) : synced s -> s = settled (token s) (storage s).
Proof.
  intros (Hd & Hh & Hu). destruct s as [t u h st d]. simpl in *.
  unfold settled. now rewrite Hd, Hh, Hu.
Qed.

Lemma mount_settled (v : version) (stored : option string) :
  mount v stored = settled (getItem stored) stored.
Proof. destruct v, stored as [[|c s]|]; reflexivity. Qed.

(** Both versions of the provider are in the same state once mounted: the
    later version changes the first render only. *)
Theorem mount_versions_agree (stored : option string) :
  mount Original stored = mount Revised stored.
Proof. now rewrite !mount_settled. Qed.

(** The first render of the later version already satisfies the invariant
    of the authentication state, whatever the storage holds; the first
    render of the original version breaks it whenever a token is stored:
    it is authenticated with no header set. *)
Theorem first_render_header (stored : option string) (tok : string) :
  invariant (first_render Revised stored) /\
  (tok <> EmptyString ->
   isAuthenticated (first_render Original (Some tok)) = true /\
   Authorization (first_render Original (Some tok)) = None /\
   ~ invariant (first_render Original (Some tok))).
Proof.
  split.
  - pose proof (AuthFacts.truthy_present (first_render Revised stored)) as Hp.
    unfold invariant, isAuthenticated. repeat split; try apply Hp.
    + intros Hpres. apply Hp in Hpres. simpl in *. now rewrite Hpres.
    + intros Hn. simpl in *.
      destruct (truthy (getItem stored)) eqn:Ht; [|reflexivity].
      elim Hn. apply Hp. reflexivity.
  - intros Hne. destruct tok as [|c tok]; [now elim Hne|].
    repeat split. intros (_ & Hset & _).
    assert (token_present (first_render Original (Some (String c tok)))) as Hp
      by (eexists; split; [reflexivity|discriminate]).
    specialize (Hset Hp). discriminate.
Qed.

Lemma first_render_header_witness :
  isAuthenticated (first_render Original (Some "abc")) = true /\
  Authorization (first_render Original (Some "abc")) = None /\
  ~ invariant (first_render Original (Some "abc")).
Proof.
  apply (proj2 (first_render_header None "abc")). discriminate.
Defined.

(** In every state the provider reaches, the user is the fixed [admin]
    record exactly when the state is authenticated, and null otherwise. *)
Theorem user_follows_token (v : version) (stored : option string) (s : State) :
  reachable v stored s ->
  user s = (if isAuthenticated s then Some admin else None).
Proof. intros Hr. now destruct (reachable_synced v stored s Hr) as (_ & _ & Hu). Qed.

Lemma user_follows_token_witness :
  user (fst (login Original (Granted (TString "abc")) (mount Original None)))
  = Some admin.
Proof.
  apply (user_follows_token Original None).
  eapply reachable_step; [apply reachable_mount|].
  apply (step_login Original (Granted (TString "abc"))).
Defined.

Lemma transitions_settled (v : version) (stored : option string)
    (s : State) (t : token_value) :
  reachable v stored s ->
  fst (login v (Granted t) s) = settled t (Some (toString t)) /\
  logout s = settled TNull None.
Proof.
  intros Hr. split.
  - assert (reachable v stored (fst (login v (Granted t) s))) as Hr'
      by (eapply reachable_step; [exact Hr|apply step_login]).
    apply reachable_synced, synced_settled in Hr'. rewrite Hr' at 1.
    simpl. now rewrite commit_token, commit_storage.
  - assert (reachable v stored (logout s)) as Hr'
      by (eapply reachable_step; [exact Hr|apply step_logout]).
    apply reachable_synced, synced_settled in Hr'. rewrite Hr' at 1.
    unfold logout. now rewrite commit_token, commit_storage.
Qed.

(** Login and logout forget the history: from any reachable state, a
    granted login ends in the settled state of its token, with the token's
    text in the storage, and a logout ends in the settled state of [null]
    with the storage entry removed.  So a second login replaces the first,
    and repeating a login or a logout changes nothing. *)
Theorem transitions_forget_history (v : version) (stored : option string)
    (s : State) (t t' : token_value) :
  reachable v stored s ->
  fst (login v (Granted t) s) = settled t (Some (toString t)) /\
  logout s = settled TNull None /\
  fst (login v (Granted t') (fst (login v (Granted t) s)))
    = fst (login v (Granted t') s) /\
  logout (logout s) = logout s.
Proof.
  intros Hr.
  assert (reachable v stored (fst (login v (Granted t) s))) as Hr1
    by (eapply reachable_step; [exact Hr|apply step_login]).
  assert (reachable v stored (logout s)) as Hr2
    by (eapply reachable_step; [exact Hr|apply step_logout]).
  destruct (transitions_settled v stored s t Hr) as [Hl Ho].
  split; [exact Hl|]. split; [exact Ho|]. split.
  - rewrite (proj1 (transitions_settled v stored _ t' Hr1)).
    now rewrite (proj1 (transitions_settled v stored s t' Hr)).
  - now rewrite (proj2 (transitions_settled v stored _ t Hr2)), Ho.
Qed.

Lemma transitions_forget_history_witness :
  fst (login Revised (Granted (TString "abc")) (mount Revised (Some "old")))
    = settled (TString "abc") (Some "abc") /\
  logout (mount Revised (Some "old")) = settled TNull None /\
  fst (login Revised (Granted TNull)
         (fst (login Revised (Granted (TString "abc")) (mount Revised (Some "old")))))
    = fst (login Revised (Granted TNull) (mount Revised (Some "old"))) /\
  logout (logout (mount Revised (Some "old"))) = logout (mount Revised (Some "old")).
Proof.
  apply (transitions_forget_history Revised (Some "old")
           (mount Revised (Some "old")) (TString "abc") TNull).
  apply reachable_mount.
Defined.

(** A reload restores the session: after a login that was granted a text
    token, and after a logout, mounting the provider again on the storage
    the state left behind gives that same state. *)
Theorem reload_restores_session (v : version) (stored : option string)
    (s : State) (tok : string) :
  reachable v stored s ->
  mount v (storage (fst (login v (Granted (TString tok)) s)))
    = fst (login v (Granted (TString tok)) s) /\
  mount v (storage (logout s)) = logout s.
Proof.
  intros Hr.
  destruct (transitions_settled v stored s (TString tok) Hr) as [-> ->].
  now rewrite !mount_settled.
Qed.

Lemma reload_restores_session_witness :
  mount Original (storage (logout (mount Original (Some "abc"))))
  = logout (mount Original (Some "abc")).
Proof.
  apply (proj2 (reload_restores_session Original (Some "abc") _ "x"
                  (reachable_mount Original (Some "abc")))).
Defined.

(** A granted response whose [access_token] is missing or null leaves the
    provider unauthenticated but stores the text of that value as the
    token: after a reload the provider is authenticated with the header
    Bearer undefined (or Bearer null). *)
Theorem missing_access_token_is_stored (v : version) (s : State)
    (t : token_value) :
  t = TUndefined \/ t = TNull ->
  isAuthenticated (fst (login v (Granted t) s)) = false /\
  storage (fst (login v (Granted t) s)) = Some (toString t) /\
  isAuthenticated (mount v (storage (fst (login v (Granted t) s)))) = true /\
  Authorization (mount v (storage (fst (login v (Granted t) s))))
    = Some (String.append "Bearer " (toString t)).
Proof.
  intros Ht. simpl fst. unfold isAuthenticated.
  rewrite commit_token, commit_storage. simpl.
  rewrite mount_settled. destruct Ht as [-> | ->]; repeat split.
Qed.

Lemma missing_access_token_is_stored_witness :
  Authorization
    (mount Original
       (storage (fst (login Original (Granted TUndefined) (mount Original None)))))
  = Some "Bearer undefined".
Proof.
  apply (missing_access_token_is_stored Original (mount Original None) TUndefined).
  now left.
Defined.

End AuthExtras.

(** * Properties of the login form, the root component and the initial fetch *)
Module AppExtras.
Import Auth AuthSession.

(** With the provider it is written for, the login form always leaves its
    loading state; it shows the error exactly when the credentials are
    rejected; and after a granted response it shows none, while the
    application moves on from the login screen only if the granted token
    is a non-empty text. *)
Theorem login_form_outcome (stored : option string) (resp : token_response)
    (f : LoginForm.Form) (s : State) :
  reachable Original stored s ->
  let f' := fst (LoginForm.handleSubmit Original resp f s) in
  let s' := snd (LoginForm.handleSubmit Original resp f s) in
  LoginForm.isLoading f' = false /\
  (LoginForm.error f' = "Invalid credentials" <-> resp = Rejected) /\
  (resp = Rejected -> s' = s) /\
  (forall t, resp = Granted t ->
     LoginForm.error f' = "" /\
     (LoginForm.AppContent s' = LoginForm.MainScreen <-> truthy t = true)).
Proof.
  intros Hr. cbv zeta. destruct resp as [t|].
  - unfold LoginForm.handleSubmit.
    change (login Original (Granted t) s)
      with (fst (login Original (Granted t) s), Returned true).
    cbn [fst snd LoginForm.isLoading LoginForm.error].
    split; [reflexivity|]. split; [split; discriminate|].
    split; [discriminate|]. intros t' [= <-]. split; [reflexivity|].
    destruct (AuthExtras.transitions_settled Original stored s t Hr)
      as [-> _].
    unfold LoginForm.AppContent, isAuthenticated. simpl.
    destruct (truthy t); split; congruence.
  - simpl. split; [reflexivity|]. split; [split; reflexivity|].
    split; [reflexivity|]. intros t [=].
Qed.

Lemma login_form_outcome_witness :
  LoginForm.isLoading
    (fst (LoginForm.handleSubmit Original Rejected LoginForm.initial
            (mount Original None))) = false.
Proof.
  apply (login_form_outcome None Rejected LoginForm.initial (mount Original None)).
  apply reachable_mount.
Defined.

(** The initial fetch is all-or-nothing and carries the stored token: the
    statistics and the analysis are replaced together, by the data of two
    fulfilled requests, or the state is left as it was; the tab is never
    changed; no request is sent exactly when the storage holds no token or
    an empty one; and every request sent carries Bearer and the stored
    token. *)
Theorem fetchStats_all_or_nothing (stored : option string)
    (resStats resAnalysis : MainContent.Response) (s : MainContent.State) :
  let s' := fst (MainContent.fetchStats stored resStats resAnalysis s) in
  let requests := snd (MainContent.fetchStats stored resStats resAnalysis s) in
  (s' = s \/
   exists dataStats dataAnalysis,
     resStats = MainContent.Fulfilled dataStats /\
     resAnalysis = MainContent.Fulfilled dataAnalysis /\
     MainContent.stats s' = dataStats /\ MainContent.analysis s' = dataAnalysis) /\
  MainContent.activeTab s' = MainContent.activeTab s /\
  (requests = [] <-> stored = None \/ stored = Some EmptyString) /\
  (forall tok, stored = Some tok ->
     Forall (fun r => MainContent.authorization r = String.append "Bearer " tok)
            requests).
Proof.
  cbv zeta. unfold MainContent.fetchStats.
  destruct stored as [[|c tok]|].
  - simpl. split; [now left|]. split; [reflexivity|].
    split; [split; auto|]. intros tok' _. constructor.
  - destruct resStats as [d1|], resAnalysis as [d2|]; simpl;
      (split; [first [left; reflexivity | right; eauto 6]|]);
      (split; [reflexivity|]);
      (split; [split; [discriminate|intros [?|?]; discriminate]|]);
      intros tok' [= <-]; repeat constructor.
  - simpl. split; [now left|]. split; [reflexivity|].
    split; [split; auto|]. intros tok' [=].
Qed.

(** The initial fetch runs in the mount effect of [MainContent], before
    the effect of the provider in the same commit; in the state of that
    render, when it is authenticated, the fetch sends its requests, and
    the header it builds from the local storage is the header the
    provider sets on axios in that commit. *)
Theorem fetchStats_header_agrees (v : version) (stored : option string)
    (p : State) (resStats resAnalysis : MainContent.Response)
    (s : MainContent.State) :
  rendering v stored p -> isAuthenticated p = true ->
  let requests :=
    snd (MainContent.fetchStats (storage p) resStats resAnalysis s) in
  requests <> [] /\
  Forall (fun r => Authorization (commit p) = Some (MainContent.authorization r))
         requests.
Proof.
  intros Hr Hauth. cbv zeta. unfold isAuthenticated in Hauth.
  assert (exists c tok, token p = TString (String c tok) /\
            storage p = Some (String c tok) /\
            Authorization (commit p) = Some (bearer (token p)))
    as (c & tok & Ht & Hst & Hh).
  { destruct Hr as [|a access_token Ha].
    - destruct stored as [[|c tok]|];
        [destruct v; discriminate Hauth| |destruct v; discriminate Hauth].
      exists c, tok. destruct v; repeat split; reflexivity.
    - destruct access_token as [| |[|c tok]]; try discriminate Hauth.
      exists c, tok. split; [reflexivity|]. split; [reflexivity|].
      apply AuthExtras.reachable_synced in Ha as (Hd & Hha & _).
      unfold commit. cbn [effect_dep setItem setToken token].
      rewrite Hd. destruct (same_value (token a) (TString (String c tok))) eqn:Es.
      + apply AuthFacts.same_value_eq in Es.
        cbn [Authorization setItem setToken]. rewrite Hha, Es. reflexivity.
      + reflexivity. }
  rewrite Hst, Hh, Ht. unfold MainContent.fetchStats.
  destruct resStats, resAnalysis; simpl;
    (split; [discriminate|repeat constructor]).
Qed.

Lemma fetchStats_header_agrees_witness :
  snd (MainContent.fetchStats (storage (first_render Original (Some "abc")))
         (MainContent.Fulfilled JS.Null) MainContent.Failed MainContent.initial)
    <> [] /\
  Forall (fun r => Authorization (commit (first_render Original (Some "abc")))
                   = Some (MainContent.authorization r))
    (snd (MainContent.fetchStats (storage (first_render Original (Some "abc")))
            (MainContent.Fulfilled JS.Null) MainContent.Failed
            MainContent.initial)).
Proof.
  apply (fetchStats_header_agrees Original (Some "abc")
           (first_render Original (Some "abc"))
           (MainContent.Fulfilled JS.Null) MainContent.Failed MainContent.initial).
  - constructor.
  - reflexivity.
Defined.

End AppExtras.

(** * Properties of the toasts *)
Module ComponentExtras.

Lemma without_app (i : Z) (l1 l2 : list Toast.toast) :
  Toast.without i (l1 ++ l2)%list = (Toast.without i l1 ++ Toast.without i l2)%list.
Proof. apply List.filter_app. Qed.

Lemma without_fresh (i : Z) (l : list Toast.toast) :
  Forall (fun x => Toast.id x <> i) l -> Toast.without i l = l.
Proof.
  induction 1 as [|x l Hx _ IH]; simpl; [reflexivity|].
  destruct (Z.eqb_spec (Toast.id x) i); [contradiction|]. simpl. now rewrite IH.
Qed.

Lemma without_removes (i : Z) (l : list Toast.toast) :
  Forall (fun x => Toast.id x <> i) (Toast.without i l).
Proof.
  apply Forall_forall. intros x Hx%list_elem_of_In.
  apply List.filter_In in Hx as [_ Hx].
  destruct (Z.eqb_spec (Toast.id x) i); [discriminate|assumption].
Qed.

Lemma without_keeps (i j : Z) (l : list Toast.toast) :
  Forall (fun x => Toast.id x <> i) l ->
  Forall (fun x => Toast.id x <> i) (Toast.without j l).
Proof.
  rewrite !Forall_forall. intros Hl x Hx%list_elem_of_In.
  apply List.filter_In in Hx as [Hx _]. apply Hl, list_elem_of_In, Hx.
Qed.

(** A toast is dismissed by its id, which is the time it was added:
    dismissing a toast whose id no other toast has gives the list back as
    it was before the toast was added, and two toasts added at the same
    time are dismissed together. *)
Theorem dismiss_by_id (s : Toast.State) (now : Z)
    (m1 t1 m2 t2 : string) (d1 d2 : Z) :
  Forall (fun x => Toast.id x <> now) (Toast.toasts s) ->
  Toast.toasts (Toast.removeToast now (Toast.addToast now m1 t1 d1 s))
    = Toast.toasts s /\
  Toast.toasts (Toast.removeToast now
                  (Toast.addToast now m2 t2 d2 (Toast.addToast now m1 t1 d1 s)))
    = Toast.toasts s.
Proof.
  intros Hfresh. simpl. rewrite !without_app, (without_fresh now _ Hfresh).
  simpl. rewrite Z.eqb_refl. simpl. now rewrite !app_nil_r.
Qed.

Lemma dismiss_by_id_witness :
  Toast.toasts (Toast.removeToast 1000
                  (Toast.addToast 1000 "Saved" "success" 4000 Toast.initial))
  = [].
Proof.
  apply (dismiss_by_id Toast.initial 1000 "Saved" "success" "" "" 4000 0).
  constructor.
Defined.

Lemma run_timers_removes (due : list (Z * Z)) :
  forall (l : list Toast.toast) (i : Z),
    (Forall (fun x => Toast.id x <> i) l \/ In i (map snd due)) ->
    Forall (fun x => Toast.id x <> i)
           (fold_left (fun l timer => Toast.without (snd timer) l) due l).
Proof.
  induction due as [|[t j] due IH]; simpl; intros l i [Hl|Hin].
  - exact Hl.
  - contradiction.
  - apply IH. left. now apply without_keeps.
  - apply IH. destruct Hin as [->|Hin]; [left; apply without_removes|now right].
Qed.

Lemma run_timers_keeps (due : list (Z * Z)) :
  forall (l : list Toast.toast) (x : Toast.toast),
    In x l -> ~ In (Toast.id x) (map snd due) ->
    In x (fold_left (fun l timer => Toast.without (snd timer) l) due l).
Proof.
  induction due as [|[t j] due IH]; simpl; intros l x Hx Hn; [exact Hx|].
  apply IH; [|tauto]. apply List.filter_In. split; [exact Hx|].
  destruct (Z.eqb_spec (Toast.id x) j); [elim Hn; now left|reflexivity].
Qed.

Lemma timeout_delay_in_range (duration : Z) :
  0 <= duration < 2 ^ 31 -> Toast.timeout_delay duration = duration.
Proof.
  intros H. unfold Toast.timeout_delay, Toast.ToInt32.
  rewrite Z.mod_small by lia. lia.
Qed.

Lemma timeout_delay_overflow (duration : Z) :
  2 ^ 31 <= duration < 2 ^ 32 -> Toast.timeout_delay duration = 0.
Proof.
  intros H. unfold Toast.timeout_delay, Toast.ToInt32.
  replace (duration + 2 ^ 31) with (duration - 2 ^ 31 + 1 * 2 ^ 32) by lia.
  rewrite Z.mod_add by lia. rewrite Z.mod_small by lia. lia.
Qed.

Lemma expired_toast_removed (s : Toast.State) (now duration t : Z) (msg ty : string) :
  now + Toast.timeout_delay duration <= t ->
  Forall (fun x => Toast.id x <> now)
         (Toast.toasts (Toast.advance t (Toast.addToast now msg ty duration s))).
Proof.
  intros Hdue. unfold Toast.advance. cbn [Toast.toasts Toast.timers Toast.addToast].
  apply run_timers_removes. right.
  apply in_map_iff. exists (now + Toast.timeout_delay duration, now).
  split; [reflexivity|].
  apply List.filter_In. split; [apply in_or_app; right; now left|].
  cbn [fst]. now apply Z.leb_le.
Qed.

(** A toast expires: for a duration that [setTimeout] takes as it is, from
    one millisecond to 2^31 - 1, no toast with its id is left once the
    clock has reached the time it was added plus its duration, and before
    that time it is still shown, unless an older timer removes the same
    id.  A duration from 2^31 up to 2^32 overflows the 32-bit delay: its
    toast is gone within a millisecond. *)
Theorem toast_expires (s : Toast.State) (now duration t : Z) (msg ty : string) :
  (1 <= duration < 2 ^ 31 ->
   now + duration <= t ->
   Forall (fun x => Toast.id x <> now)
          (Toast.toasts (Toast.advance t (Toast.addToast now msg ty duration s)))) /\
  (1 <= duration < 2 ^ 31 ->
   t < now + duration ->
   Forall (fun timer => snd timer <> now) (Toast.timers s) ->
   In {| Toast.id := now; Toast.message := msg; Toast.type := ty |}
      (Toast.toasts (Toast.advance t (Toast.addToast now msg ty duration s)))) /\
  (2 ^ 31 <= duration < 2 ^ 32 ->
   Forall (fun x => Toast.id x <> now)
          (Toast.toasts (Toast.advance (now + 1)
                           (Toast.addToast now msg ty duration s)))).
Proof.
  split; [|split].
  - intros Hrange Hdue. apply expired_toast_removed.
    rewrite timeout_delay_in_range by lia. exact Hdue.
  - intros Hrange Hnot Htimers. unfold Toast.advance.
    cbn [Toast.toasts Toast.timers Toast.addToast].
    rewrite timeout_delay_in_range by lia.
    apply run_timers_keeps; [apply in_or_app; right; now left|].
    cbn [Toast.id]. intros Hin. apply in_map_iff in Hin as ([t' j] & Hj & Hin).
    cbn [snd] in Hj. subst j. apply List.filter_In in Hin as [Hin Hle].
    apply in_app_or in Hin as [Hin|[Hin|[]]].
    + rewrite Forall_forall in Htimers.
      apply (Htimers (t', now)); [now apply list_elem_of_In|reflexivity].
    + injection Hin as <-. cbn [fst] in Hle. apply Z.leb_le in Hle. lia.
  - intros Hover. apply expired_toast_removed.
    rewrite (timeout_delay_overflow duration Hover). lia.
Qed.

Lemma toast_expires_witness :
  Forall (fun x => Toast.id x <> 1000)
    (Toast.toasts (Toast.advance 5000
                     (Toast.addToast 1000 "Saved" "success" 4000 Toast.initial))).
Proof.
  apply (proj1 (toast_expires Toast.initial 1000 4000 5000 "Saved" "success")).
  - split; [lia|reflexivity].
  - lia.
Defined.

End ComponentExtras.

(** * Properties of the prediction form *)
Module FormExtras.
Import JS Predictor PredictorForm.

Lemma onChange_fixed (fd : FormData) (e : Event) :
  fixed_fields (onChange fd e) = fixed_fields fd.
Proof. destruct e; reflexivity. Qed.

Lemma fold_onChange_fixed (events : list Event) :
  forall fd, fixed_fields (fold_left onChange events fd) = fixed_fields fd.
Proof.
  induction events as [|e events IH]; intros fd; simpl; [reflexivity|].
  now rewrite IH, onChange_fixed.
Qed.

(** Whatever is done with the form, the body it posts keeps the initial
    values of the fifteen fields that have no control: in particular the
    monthly and the total charges are always 70 and the senior-citizen
    flag is always 0. *)
Theorem untouched_fields_keep_defaults (events : list Event) :
  fixed_fields (after events) = fixed_fields initialFormData /\
  MonthlyCharges (after events) = Num 70%Q /\
  TotalCharges (after events) = Num 70%Q /\
  SeniorCitizen (after events) = Num 0%Q /\
  OnlineSecurity (after events) = "No".
Proof.
  pose proof (fold_onChange_fixed events initialFormData) as Hf.
  fold (after events) in Hf. split; [exact Hf|].
  unfold fixed_fields in Hf. injection Hf as ?????????? ?????.
  cbn in *. auto.
Qed.

Lemma onChange_options (fd : FormData) (e : Event) :
  from_options e ->
  In (Contract fd) contract_options /\ In (PaymentMethod fd) payment_options /\
  In (InternetService fd) internet_options ->
  In (Contract (onChange fd e)) contract_options /\
  In (PaymentMethod (onChange fd e)) payment_options /\
  In (InternetService (onChange fd e)) internet_options.
Proof. destruct e; simpl; intros He (Hc & Hp & Hi); auto. Qed.

(** As long as the three select controls deliver one of their options, the
    contract, the payment method and the internet service of the form are
    among the options of their control. *)
Theorem select_fields_stay_in_options (events : list Event) :
  Forall from_options events ->
  In (Contract (after events)) contract_options /\
  In (PaymentMethod (after events)) payment_options /\
  In (InternetService (after events)) internet_options.
Proof.
  unfold after.
  assert (In (Contract initialFormData) contract_options /\
          In (PaymentMethod initialFormData) payment_options /\
          In (InternetService initialFormData) internet_options) as Hinit
    by (simpl; auto).
  revert Hinit. generalize initialFormData.
  induction events as [|e events IH]; intros fd Hfd Hev; simpl; [exact Hfd|].
  inversion Hev; subst. apply IH; [|assumption]. now apply onChange_options.
Qed.

Lemma select_fields_stay_in_options_witness :
  In (Contract (after [ChangeContract "Two year"; ChangeTenure "36"]))
     contract_options /\
  In (PaymentMethod (after [ChangeContract "Two year"; ChangeTenure "36"]))
     payment_options /\
  In (InternetService (after [ChangeContract "Two year"; ChangeTenure "36"]))
     internet_options.
Proof.
  apply (select_fields_stay_in_options
           [ChangeContract "Two year"; ChangeTenure "36"]).
  constructor; [simpl; auto|]. constructor; [exact I|constructor].
Defined.

Lemma skip_white_space_length (s : string) :
  (String.length (skip_white_space s) <= String.length s)%nat.
Proof.
  induction s as [|c s IH]; simpl; [lia|].
  destruct (is_white_space c); simpl; lia.
Qed.

Lemma radix_digit_range (radix : Z) (c : ascii) (d : Z) :
  radix_digit radix c = Some d -> 0 <= d < radix.
Proof.
  unfold radix_digit. set (n := Z.of_nat (nat_of_ascii c)).
  destruct ((48 <=? n) && (n <=? 57)) eqn:E1;
    [|destruct ((97 <=? n) && (n <=? 102)) eqn:E2;
      [|destruct ((65 <=? n) && (n <=? 70)) eqn:E3; [|discriminate]]];
    match goal with
    | |- context [?v <? radix] => destruct (Z.ltb_spec v radix); [|discriminate]
    end;
    intros [= <-]; lia.
Qed.

(** The digits read after an accumulator [a] give a number below
    [(a + 1) * radix ^ length]. *)
Lemma digits_prefix_bound (radix : Z) (s : string) :
  0 < radix ->
  forall a m,
    0 <= a -> digits_prefix radix (Some a) s = Some m ->
    0 <= m < (a + 1) * radix ^ Z.of_nat (String.length s).
Proof.
  intros Hr. induction s as [|c s IH]; intros a m Ha; simpl digits_prefix.
  - intros [= <-]. simpl. lia.
  - assert (0 < radix ^ Z.of_nat (String.length s)) as Hpow
      by (apply Z.pow_pos_nonneg; lia).
    cbn [String.length]. rewrite Nat2Z.inj_succ, Z.pow_succ_r by lia.
    destruct (radix_digit radix c) as [d|] eqn:Ed.
    + apply radix_digit_range in Ed. intros Hm.
      apply IH in Hm; [|nia]. nia.
    + intros [= <-]. nia.
Qed.

Lemma digits_prefix_first (radix : Z) (s : string) (m : Z) :
  0 < radix ->
  digits_prefix radix None s = Some m ->
  0 <= m < radix ^ Z.of_nat (String.length s).
Proof.
  intros Hr. destruct s as [|c s]; simpl digits_prefix; [discriminate|].
  destruct (radix_digit radix c) as [d|] eqn:Ed; [|discriminate].
  apply radix_digit_range in Ed. intros Hm.
  apply digits_prefix_bound in Hm; [|lia|lia].
  assert (0 < radix ^ Z.of_nat (String.length s)) as Hpow
    by (apply Z.pow_pos_nonneg; lia).
  cbn [String.length]. rewrite Nat2Z.inj_succ, Z.pow_succ_r by lia. nia.
Qed.

(** A text of at most fifteen characters is read as NaN or as an integer
    below 2^53 in magnitude, which binary64 holds exactly. *)
Lemma parseInt_short (input : string) :
  (String.length input <= 15)%nat ->
  parseInt input = NaN \/
  exists z, parseInt input = Num (inject_Z z) /\ Z.abs z < 2 ^ 53.
Proof.
  intros Hlen. unfold parseInt.
  pose proof (skip_white_space_length input) as Hs.
  set (s := skip_white_space input) in *. clearbody s.
  destruct (match s with
            | EmptyString => (1, s)
            | String c rest =>
                if Ascii.eqb c "-" then (-1, rest)
                else if Ascii.eqb c "+" then (1, rest)
                else (1, s)
            end) as [sign s1] eqn:E1.
  assert ((sign = 1 \/ sign = -1) /\
          (String.length s1 <= String.length s)%nat) as [Hsign Hs1].
  { destruct s as [|c rest]; [injection E1 as <- <-; split; [auto|lia]|].
    destruct (Ascii.eqb c "-"); [|destruct (Ascii.eqb c "+")];
      injection E1 as <- <-; split; auto; simpl; lia. }
  destruct (match s1 with
            | String c0 (String c1 rest) =>
                if Ascii.eqb c0 "0" && (Ascii.eqb c1 "x" || Ascii.eqb c1 "X")
                then (16, rest) else (10, s1)
            | _ => (10, s1)
            end) as [radix s2] eqn:E2.
  assert ((radix = 10 /\ (String.length s2 <= 15)%nat) \/
          (radix = 16 /\ (String.length s2 <= 13)%nat)) as Hradix.
  { destruct s1 as [|c0 [|c1 rest]];
      try (injection E2 as <- <-; left; split; [reflexivity|lia]).
    destruct (Ascii.eqb c0 "0" && (Ascii.eqb c1 "x" || Ascii.eqb c1 "X"));
      injection E2 as <- <-;
      [right|left]; (split; [reflexivity|simpl in *; lia]). }
  destruct (digits_prefix radix None s2) as [m|] eqn:Em; [|now left].
  right. exists (sign * m). split; [reflexivity|].
  assert (0 <= m < 2 ^ 53) as Hm.
  { destruct Hradix as [[-> Hl]|[-> Hl]];
      apply digits_prefix_first in Em; try lia.
    - assert (10 ^ Z.of_nat (String.length s2) <= 10 ^ 15)
        by (apply Z.pow_le_mono_r; lia).
      assert (10 ^ 15 < 2 ^ 53) by reflexivity. lia.
    - assert (16 ^ Z.of_nat (String.length s2) <= 16 ^ 13)
        by (apply Z.pow_le_mono_r; lia).
      assert (16 ^ 13 < 2 ^ 53) by reflexivity. lia. }
  destruct Hsign as [-> | ->]; lia.
Qed.

(** The tenure of the form is never a fraction: as long as the texts typed
    into the tenure input have at most fifteen characters, it is NaN or an
    integer below 2^53 in magnitude after any sequence of events; and it
    is NaN after the tenure input has been cleared. *)
Theorem tenure_integer_or_NaN (events : list Event) :
  Forall short_text events ->
  (tenure (after events) = NaN \/
   exists z, tenure (after events) = Num (inject_Z z) /\ Z.abs z < 2 ^ 53) /\
  tenure (after (events ++ [ChangeTenure ""])%list) = NaN.
Proof.
  intros Hshort. split.
  - unfold after.
    assert (tenure initialFormData = NaN \/
            exists z, tenure initialFormData = Num (inject_Z z) /\ Z.abs z < 2 ^ 53)
      as Hinit by (right; exists 1; split; reflexivity).
    revert Hinit. generalize initialFormData.
    induction Hshort as [|e events He _ IH]; intros fd Hfd; simpl; [exact Hfd|].
    apply IH. destruct e; simpl; try exact Hfd. now apply parseInt_short.
  - unfold after. rewrite fold_left_app. reflexivity.
Qed.

Lemma tenure_integer_or_NaN_witness :
  (tenure (after [ChangeTenure "36"; ChangeContract "Two year"]) = NaN \/
   exists z, tenure (after [ChangeTenure "36"; ChangeContract "Two year"])
             = Num (inject_Z z) /\ Z.abs z < 2 ^ 53) /\
  tenure (after ([ChangeTenure "36"; ChangeContract "Two year"]
                 ++ [ChangeTenure ""])%list) = NaN.
Proof.
  apply (tenure_integer_or_NaN [ChangeTenure "36"; ChangeContract "Two year"]).
  constructor; [simpl; lia|]. constructor; [exact I|constructor].
Defined.

End FormExtras.

(** * Properties of the result card *)
Module ResultExtras.
Import ResultCard.

Lemma get_truthy (result : value) (k : string) (v : value) :
  get result k = v -> v <> Undefined -> truthy result = true.
Proof. destruct result; simpl; intros <- Hv; try reflexivity; now elim Hv. Qed.

Lemma toFixed1_nan : toFixed1 (nan * 100)%float = Some "NaN".
Proof. reflexivity. Qed.

(** The card shows the field churn_risk_score of the response and nothing
    else of its numbers.  It is the placeholder exactly when the result is
    falsy.  It throws when the summary or one of the suggestions is no
    valid child, as a record with fields is.  When the response has no
    field churn_risk_score, whatever other fields it has, the card never
    shows a percentage: it throws or it shows NaN% in the colour of a low
    risk.  When the field is a number and the children are valid, the
    panel shows the summary, the percentage with one decimal, the accent
    colour above 0.5, and one entry per suggestion in the order of the
    response. *)
Theorem result_card_reads_churn_risk_score (result : value) :
  (render result = Rendered Placeholder <-> truthy result = false) /\
  (truthy result = true -> renderable (get result "summary") = false ->
   render result = Throws) /\
  (forall items,
     truthy result = true -> get result "suggestions" = Array items ->
     forallb renderable items = false -> render result = Throws) /\
  (truthy result = true -> get result "churn_risk_score" = Undefined ->
   render result = Throws \/
   exists panel, render result = Rendered (Panel panel) /\
                 score_text panel = "NaN%" /\ score_color panel = success) /\
  (forall x items text,
     get result "churn_risk_score" = Number x ->
     get result "suggestions" = Array items ->
     renderable (get result "summary") = true ->
     forallb renderable items = true ->
     toFixed1 (x * 100)%float = Some text ->
     render result
     = Rendered (Panel {| summary := get result "summary";
                          score_color :=
                            if PrimFloat.ltb 0.5%float x then accent else success;
                          score_text := String.append text "%";
                          suggestion_items := items |})).
Proof.
  split; [|split; [|split; [|split]]].
  - unfold render. destruct (truthy result); [|split; reflexivity].
    split; [|discriminate].
    destruct (suggestions_of result); [|discriminate].
    destruct (renderable _ && forallb renderable _); [|discriminate].
    destruct (ToNumber _) as [score|]; [|discriminate].
    destruct (toFixed1 _); discriminate.
  - intros Ht Hs. unfold render. rewrite Ht, Hs.
    destruct (suggestions_of result); reflexivity.
  - intros items Ht Hs Hi. unfold render, suggestions_of.
    rewrite Ht, Hs. cbn [truthy]. rewrite Hi, andb_false_r. reflexivity.
  - intros Ht Hs. unfold render. rewrite Ht, Hs.
    destruct (suggestions_of result) as [items|]; [|now left].
    destruct (renderable _ && forallb renderable items); [|now left].
    right. cbn [ToNumber]. rewrite toFixed1_nan.
    eexists. repeat split.
  - intros x items text Hx Hs Hsum Hi Htext.
    unfold render, suggestions_of.
    rewrite (get_truthy result _ _ Hx) by discriminate.
    rewrite Hs, Hx, Hsum. cbn [truthy ToNumber andb]. rewrite Hi, Htext.
    reflexivity.
Qed.

Lemma result_card_reads_churn_risk_score_witness :
  render response_as_specified = Throws /\
  (render response_renamed = Throws \/
   exists panel, render response_renamed = Rendered (Panel panel) /\
                 score_text panel = "NaN%" /\ score_color panel = success).
Proof.
  split.
  - apply (proj1 (proj2 (proj2 (result_card_reads_churn_risk_score
                                  response_as_specified)))
             [strategy_action "Long-term contract upgrade" "High"
                "Offer a one-year contract" "-15%"]);
      reflexivity.
  - apply (proj1 (proj2 (proj2 (proj2 (result_card_reads_churn_risk_score
                                         response_renamed)))));
      reflexivity.
Defined.

(** The card on the sample responses: 80.0% in the accent colour with two
    entries; NaN% when the probability comes under another name; and 0.1%
    for a score of 0.0015, whose product with 100 is below 0.15 in
    binary64. *)
Lemma render_samples :
  render response_v1
  = Rendered (Panel {| summary := Str "High Risk"; score_color := accent;
                       score_text := "80.0%";
                       suggestion_items := [Str "Offer a long-term contract";
                                            Str "Promote automatic payment"] |}) /\
  render response_renamed
  = Rendered (Panel {| summary := Str "High Risk"; score_color := success;
                       score_text := "NaN%";
                       suggestion_items := [Str "Offer a long-term contract"] |}) /\
  render response_small
  = Rendered (Panel {| summary := Str "Low Risk"; score_color := success;
                       score_text := "0.1%"; suggestion_items := [] |}).
Proof. repeat split; vm_compute; reflexivity. Qed.

End ResultExtras.
